(** * crlset-tools: a shallow embedding of [crlset.go]

    The program downloads a CRX container, extracts the CRLSet it holds and
    dumps CRLSet files.  Go byte slices are [list byte], Go strings are
    [string], Go's [int] is a 64-bit integer carried by [Z], and every write to
    the standard streams is an [event] of the trace a function returns. *)

From Stdlib Require Import ZArith List Bool Lia.
From Stdlib.Strings Require Import String Ascii Byte.
Import ListNotations.
Open Scope Z_scope.

(** ** Bytes, slices and integers *)

Definition byte_val (b : byte) : Z := Z.of_N (Byte.to_N b).

Definition byte_of_Z (z : Z) : byte :=
  match Byte.of_N (Z.to_N (z mod 256)) with
  | Some b => b
  | None => x00
  end.

(** [len c], [c[i]], [c[:k]] and [c[k:]] of a Go slice.  The program guards
    every index and slice by a length test, so the out-of-range behaviour of
    these helpers is never reached by it. *)
Definition len {A : Type} (c : list A) : Z := Z.of_nat (List.length c).
Definition index (c : list byte) (i : Z) : byte := nth (Z.to_nat i) c x00.
Definition slice_to {A : Type} (c : list A) (k : Z) : list A := firstn (Z.to_nat k) c.
Definition slice_from {A : Type} (c : list A) (k : Z) : list A := skipn (Z.to_nat k) c.

(** Wrap-around of Go's [uint32]. *)
Definition u32 (z : Z) : Z := z mod 2 ^ 32.

(** [bytes.Equal]. *)
Fixpoint bytes_Equal (a b : list byte) : bool :=
  match a, b with
  | [], [] => true
  | x :: a', y :: b' => Byte.eqb x y && bytes_Equal a' b'
  | _, _ => false
  end.

(** ** Text *)

Definition nl : string := String "010" EmptyString.
Definition tab : string := String "009" EmptyString.

Definition hexdigit (n : Z) : ascii :=
  if n <? 10 then ascii_of_nat (Z.to_nat (48 + n)) else ascii_of_nat (Z.to_nat (87 + n)).

(** The verb [%x] applied to a byte slice, and [hex.EncodeToString]: two
    lower-case hexadecimal digits per byte. *)
Fixpoint hex (bs : list byte) : string :=
  match bs with
  | [] => EmptyString
  | b :: bs' =>
      String (hexdigit (byte_val b / 16)) (String (hexdigit (byte_val b mod 16)) (hex bs'))
  end.

(** ** Effects *)

Inductive event : Type :=
| Stdout (s : string)
| Stderr (s : string).

Definition stdout_of (t : list event) : list string :=
  flat_map (fun e => match e with Stdout s => [s] | Stderr _ => [] end) t.

Definition stderr_of (t : list event) : list string :=
  flat_map (fun e => match e with Stderr s => [s] | Stdout _ => [] end) t.

(** How a loop hands control back: it ran to its end with a cursor, or the
    enclosing function returned. *)
Inductive flow : Type :=
| Next (c : list byte)
| Return (b : bool).

(** ** [dump]: the body loop *)

Definition spkiHashLen : Z := 32.

Definition fmt_record (current_spki serial : list byte) : string :=
  ("\\x" ++ hex current_spki ++ tab ++ "\\x" ++ hex serial ++ tab ++ nl)%string.

Definition fmt_serial (serial : list byte) : string := (hex serial ++ nl)%string.

(** What one serial makes [dump] print. *)
Definition print_serial (spki current_spki : list byte) (spkiMatches : bool)
    (serial : list byte) : list event :=
  if len spki =? 0 then [Stdout (fmt_record current_spki serial)]
  else if spkiMatches then [Stdout (fmt_serial serial)]
  else [].

(** The loop [for i := uint32(0); i < numSerials; i++].  Every turn that does
    not return consumes at least the length byte, so [fuel] above the length
    of [c] is never used up. *)
Fixpoint serial_loop (fuel : nat) (spki current_spki : list byte) (spkiMatches : bool)
    (numSerials i : Z) (c : list byte) : option (list event * flow) :=
  if i <? numSerials then
    match fuel with
    | O => None
    | S fuel' =>
        if len c <? 1 then
          Some ([Stderr ("CRLSet truncated at serial length" ++ nl)%string], Return false)
        else
          let serialLen := byte_val (index c 0) in
          let c := slice_from c 1 in
          if len c <? serialLen then
            Some ([Stderr ("CRLSet truncated at serial" ++ nl)%string], Return false)
          else
            let t := print_serial spki current_spki spkiMatches (slice_to c serialLen) in
            let c := slice_from c serialLen in
            match serial_loop fuel' spki current_spki spkiMatches numSerials (u32 (i + 1)) c with
            | Some (t', r) => Some (t ++ t', r)
            | None => None
            end
    end
  else Some ([], Next c).

(** The loop [for len(c) > 0]. *)
Fixpoint dump_loop (fuel : nat) (spki c : list byte) : option (list event * flow) :=
  if len c >? 0 then
    match fuel with
    | O => None
    | S fuel' =>
        if len c <? spkiHashLen then
          Some ([Stderr ("CRLSet truncated at SPKI hash" ++ nl)%string], Return false)
        else
          let spkiMatches := bytes_Equal spki (slice_to c spkiHashLen) in
          let current_spki := if len spki =? 0 then slice_to c spkiHashLen else [] in
          let c := slice_from c spkiHashLen in
          if len c <? 4 then
            Some ([Stderr ("CRLSet truncated at serial count" ++ nl)%string], Return false)
          else
            let numSerials :=
              u32 (Z.lor (Z.lor (Z.lor (byte_val (index c 0))
                                       (u32 (Z.shiftl (byte_val (index c 1)) 8)))
                                (u32 (Z.shiftl (byte_val (index c 2)) 16)))
                         (u32 (Z.shiftl (byte_val (index c 3)) 24))) in
            let c := slice_from c 4 in
            match serial_loop (S (List.length c)) spki current_spki spkiMatches numSerials 0 c with
            | Some (t, Next c) =>
                match dump_loop fuel' spki c with
                | Some (t', r) => Some (t ++ t', r)
                | None => None
                end
            | Some (t, Return b) => Some (t, Return b)
            | None => None
            end
    end
  else Some ([], Next c).

(** Lines 229-272 of [dump]: the body loop run on the bytes after the header,
    then [return true]. *)
Definition dump_body (spki c : list byte) : option (list event * bool) :=
  match dump_loop (List.length c) spki c with
  | Some (t, Next _) => Some (t, true)
  | Some (t, Return b) => Some (t, b)
  | None => None
  end.

(** ** Collaborators outside the repository *)

(** A Go call that returns a value or an [error], the error carried by its
    text. *)
Inductive result (A : Type) : Type :=
| Ok (a : A)
| Err (msg : string).
Arguments Ok {A} a.
Arguments Err {A} msg.

(** A Go call that returns or panics. *)
Inductive go (A : Type) : Type :=
| Ret (a : A)
| Panic (msg : string).
Arguments Ret {A} a.
Arguments Panic {A} msg.

(** Go's [int] on the 64-bit targets: conversion to [int] keeps the low 64
    bits, read as a signed number. *)
Definition to_int (z : Z) : Z := (z + 2 ^ 63) mod 2 ^ 64 - 2 ^ 63.

(** ** [zipReader] *)

(** [copy(dst, src)]: the new contents of [dst] and the number of bytes
    copied. *)
Definition copy (dst src : list byte) : list byte * Z :=
  let n := Z.min (len dst) (len src) in
  (slice_to src n ++ slice_from dst n, n).

(** [zipReader.ReadAt]: the buffer [p] after the call, the count and the
    error.  Slicing [z] beyond its length panics. *)
Definition ReadAt (z p : list byte) (pos : Z) : go (list byte * (Z * option string)) :=
  if to_int pos <? 0 then Ret (p, (0, None))
  else if len z <? to_int pos then Panic "slice bounds out of range"
  else
    let '(p', n) := copy p (slice_from z (to_int pos)) in
    Ret (p', (n, None)).

(** ** The CRLSet header *)

Record crlSetHeader : Type := {
  Sequence : Z;
  NumParents : Z;
  BlockedSPKIs : list string;
  KnownInterceptionSPKIs : list string;
  BlockedInterceptionSPKIs : list string
}.

Definition zero_header : crlSetHeader :=
  {| Sequence := 0; NumParents := 0; BlockedSPKIs := [];
     KnownInterceptionSPKIs := []; BlockedInterceptionSPKIs := [] |}.

(** What [reflect] shows of a [crlSetHeader]: the fields in declaration order,
    each with its name and its value, whose constructor is its type. *)
Inductive go_type : Type := TInt | TStringSlice.

Inductive go_value : Type :=
| VInt (z : Z)
| VStrings (l : list string).

Definition type_of (v : go_value) : go_type :=
  match v with VInt _ => TInt | VStrings _ => TStringSlice end.

Definition type_name (t : go_type) : string :=
  match t with TInt => "int" | TStringSlice => "[]string" end.

Definition go_type_eqb (a b : go_type) : bool :=
  match a, b with
  | TInt, TInt | TStringSlice, TStringSlice => true
  | _, _ => false
  end.

Definition fields (header : crlSetHeader) : list (string * go_value) :=
  [ ("Sequence"%string, VInt (Sequence header));
    ("NumParents"%string, VInt (NumParents header));
    ("BlockedSPKIs"%string, VStrings (BlockedSPKIs header));
    ("KnownInterceptionSPKIs"%string, VStrings (KnownInterceptionSPKIs header));
    ("BlockedInterceptionSPKIs"%string, VStrings (BlockedInterceptionSPKIs header)) ].

(** [strings.HasSuffix]. *)
Definition HasSuffix (s suffix : string) : bool :=
  (String.length suffix <=? String.length s)%nat
  && String.eqb (substring (String.length s - String.length suffix) (String.length suffix) s)
                suffix.

Definition quote : string := String "034" EmptyString.

Section Files.

(** [ioutil.ReadFile], [json.Unmarshal] into a [crlSetHeader] (the header as
    the call leaves it, and the error), [pem.Decode] (the bytes of the first
    block, if there is one), [x509.ParseCertificate] (the certificate's
    [RawSubjectPublicKeyInfo]), SHA-256 and [base64.StdEncoding.DecodeString]. *)
Variable ReadFile : string -> result (list byte).
Variable json_Unmarshal : list byte -> crlSetHeader -> crlSetHeader * option string.
Variable pem_Decode : list byte -> option (list byte).
Variable x509_ParseCertificate : list byte -> result (list byte).
Variable sha256_Sum : list byte -> list byte.
Variable base64_DecodeString : string -> result (list byte).

(** [getHeader]: the trace, and the named results [header], [rest] and [ok] as
    they stand at the return. *)
Definition getHeader (filename : string) : list event * (crlSetHeader * list byte * bool) :=
  match ReadFile filename with
  | Err err =>
      ([Stderr ("Failed to read CRLSet: " ++ err ++ nl)%string], (zero_header, [], false))
  | Ok c =>
      if len c <? 2 then
        ([Stderr ("CRLSet truncated at header length" ++ nl)%string], (zero_header, [], false))
      else
        let headerLen := Z.lor (byte_val (index c 0)) (Z.shiftl (byte_val (index c 1)) 8) in
        let c := slice_from c 2 in
        if len c <? headerLen then
          ([Stderr ("CRLSet truncated at header" ++ nl)%string], (zero_header, [], false))
        else
          let headerBytes := slice_to c headerLen in
          let c := slice_from c headerLen in
          match json_Unmarshal headerBytes zero_header with
          | (header, Some err) =>
              ([Stderr ("Failed to parse header: " ++ err)%string], (header, [], false))
          | (header, None) => ([], (header, c, true))
          end
  end.

(** Lines 203-227 of [dump]: the filter, or the return of [false]. *)
Definition certificate_spki (certificateFilename : string) : list event * option (list byte) :=
  if (0 <? String.length certificateFilename)%nat then
    match ReadFile certificateFilename with
    | Err err => ([Stderr ("Failed to read certificate: " ++ err ++ nl)%string], None)
    | Ok certBytes =>
        let derBytes :=
          match pem_Decode certBytes with
          | None => certBytes
          | Some blockBytes => blockBytes
          end in
        match x509_ParseCertificate derBytes with
        | Err err => ([Stderr ("Failed to parse certificate: " ++ err ++ nl)%string], None)
        | Ok rawSubjectPublicKeyInfo => ([], Some (sha256_Sum rawSubjectPublicKeyInfo))
        end
    end
  else ([], Some []).

Definition dump (filename certificateFilename : string) : option (list event * bool) :=
  let '(t0, (_, c, ok)) := getHeader filename in
  if negb ok then Some (t0, false)
  else
    match certificate_spki certificateFilename with
    | (t1, None) => Some (t0 ++ t1, false)
    | (t1, Some spki) =>
        match dump_body spki c with
        | Some (t2, b) => Some (t0 ++ t1 ++ t2, b)
        | None => None
        end
    end.

(** The loop over one list of [dumpSPKIs]. *)
Fixpoint dump_spki_list (spkis : list string) : list event :=
  match spkis with
  | [] => []
  | spki :: spkis' =>
      match base64_DecodeString spki with
      | Err _ => Stderr (spki ++ " is not a valid SPKI" ++ nl)%string :: dump_spki_list spkis'
      | Ok spkiBytes => Stdout (tab ++ tab ++ "\\x" ++ hex spkiBytes ++ nl)%string
                          :: dump_spki_list spkis'
      end
  end.

(** The loop of [dumpSPKIs] over the fields of the header. *)
Fixpoint dump_fields (fs : list (string * go_value)) : list event :=
  match fs with
  | [] => []
  | (fieldName, v) :: fs' =>
      if negb (HasSuffix fieldName "SPKIs") then dump_fields fs'
      else if negb (go_type_eqb (type_of v) TStringSlice) then
        Stderr ("field " ++ quote ++ fieldName ++ quote ++ " is a " ++ type_name (type_of v)
                ++ " and not the expected []string" ++ nl)%string :: dump_fields fs'
      else
        match v with
        | VStrings spkis => dump_spki_list spkis ++ dump_fields fs'
        | VInt _ => dump_fields fs'
        end
  end.

Definition dumpSPKIs (filename : string) : list event * bool :=
  let '(t0, (header, _, ok)) := getHeader filename in
  if negb ok then (t0, false)
  else (t0 ++ dump_fields (fields header), true).

End Files.

(** ** [fetch] *)

Record updateCheck : Type := { URL : string; Version : string }.
Record updateApp : Type := { AppId : string; UpdateCheck : updateCheck }.
Record update : Type := { Apps : list updateApp }.

Definition crlSetAppId : string := "hfnkpimlhhgieaddgfemjhofmfblmnib".

Definition HEXDIGIT (n : Z) : ascii :=
  if n <? 10 then ascii_of_nat (Z.to_nat (48 + n)) else ascii_of_nat (Z.to_nat (55 + n)).

(** [url.QueryEscape], which [url.Values.Encode] applies to keys and values. *)
Fixpoint QueryEscape (s : string) : string :=
  match s with
  | EmptyString => EmptyString
  | String ch s' =>
      let n := Z.of_nat (nat_of_ascii ch) in
      if ((97 <=? n) && (n <=? 122)) || ((65 <=? n) && (n <=? 90)) || ((48 <=? n) && (n <=? 57))
         || (n =? 45) || (n =? 95) || (n =? 46) || (n =? 126)
      then String ch (QueryEscape s')
      else if n =? 32 then String "+" (QueryEscape s')
      else String "%" (String (HEXDIGIT (n / 16)) (String (HEXDIGIT (n mod 16)) (QueryEscape s')))
  end.

Definition buildVersionRequestURL : string :=
  ("https://clients2.google.com/service/update2/crx?x="
   ++ QueryEscape ("id=" ++ crlSetAppId ++ "&v=&uc" ++ "&acceptformat=crx3"))%string.

(** [crxHeader] reflects the binary header of a CRX file. *)
Record crxHeader : Type := {
  Magic : list byte;
  crxVersion : Z;
  HeaderLen : Z
}.

Definition le_uint32 (c : list byte) : Z :=
  byte_val (index c 0) + 2 ^ 8 * byte_val (index c 1) + 2 ^ 16 * byte_val (index c 2)
  + 2 ^ 24 * byte_val (index c 3).

(** [binary.Read(crx, binary.LittleEndian, &header)] on a [bytes.Buffer]: the
    twelve bytes of the header are read in full or the read fails; the buffer
    that is left comes with the header. *)
Definition binary_Read (crx : list byte) : result (crxHeader * list byte) :=
  if len crx =? 0 then Err "EOF"
  else if len crx <? 12 then Err "unexpected EOF"
  else Ok ({| Magic := slice_to crx 4;
              crxVersion := le_uint32 (slice_from crx 4);
              HeaderLen := le_uint32 (slice_from crx 8) |},
           slice_from crx 12).

(** [bytes.Buffer.Next]: the next [n] bytes, or all that is left, and the
    buffer after them. *)
Definition Buffer_Next (crx : list byte) (n : Z) : list byte * list byte :=
  let m := Z.min n (len crx) in
  (slice_to crx m, slice_from crx m).

(** A file of a ZIP archive: its name, and what [Open] and the copy of the
    opened reader give. *)
Record zip_File : Type := { Name : string; Open : result (list byte) }.

Definition magic : list byte := list_byte_of_string "Cr24".

Section Fetch.

(** [http.Get] followed by [ioutil.ReadAll] of the body, [xml.Unmarshal] into
    an [update], and [zip.NewReader] over a [ReaderAt] and a size. *)
Variable http_Get : string -> result (result (list byte)).
Variable xml_Unmarshal : list byte -> update -> update * option string.
Variable zip_NewReader :
  (list byte -> Z -> go (list byte * (Z * option string))) -> Z -> result (list zip_File).

(** Lines 135-185 of [fetch]: the downloaded bytes are a CRX whose archive
    holds the CRLSet. *)
Definition fetch_crx (crxBytes : list byte) : list event * bool :=
  match binary_Read crxBytes with
  | Err err => ([Stderr ("Failed to parse CRX header: " ++ err ++ nl)%string], false)
  | Ok (header, crx) =>
      if negb (bytes_Equal (Magic header) magic) || (to_int (HeaderLen header) <? 0) then
        ([Stderr ("Downloaded file doesn't look like a CRX" ++ nl)%string], false)
      else
        let '(protoHeader, crx) := Buffer_Next crx (to_int (HeaderLen header)) in
        if negb (len protoHeader =? to_int (HeaderLen header)) then
          ([Stderr ("Downloaded file doesn't look like a CRX" ++ nl)%string], false)
        else
          let zipBytes := crx in
          match zip_NewReader (ReadAt crx) (len zipBytes) with
          | Err err => ([Stderr ("Failed to parse ZIP file: " ++ err ++ nl)%string], false)
          | Ok files =>
              match find (fun file => String.eqb (Name file) "crl-set") files with
              | None =>
                  ([Stderr ("Downloaded CRX didn't contain a CRLSet" ++ nl)%string], false)
              | Some crlFile =>
                  match Open crlFile with
                  | Err err =>
                      ([Stderr ("Failed to open crl-set in ZIP: " ++ err ++ nl)%string], false)
                  | Ok crlSet => ([Stdout (string_of_list_byte crlSet)], true)
                  end
              end
          end
  end.

Definition fetch : list event * bool :=
  match http_Get buildVersionRequestURL with
  | Err err => ([Stderr ("Failed to get current version: " ++ err ++ nl)%string], false)
  | Ok (Err err) => ([Stderr ("Failed to read version reply: " ++ err ++ nl)%string], false)
  | Ok (Ok bodyBytes) =>
      match xml_Unmarshal bodyBytes {| Apps := [] |} with
      | (_, Some err) => ([Stderr ("Failed to parse version reply: " ++ err ++ nl)%string], false)
      | (reply, None) =>
          let '(crxURL, version) :=
            match find (fun app => String.eqb (AppId app) crlSetAppId) (Apps reply) with
            | Some app => (URL (UpdateCheck app), Version (UpdateCheck app))
            | None => (EmptyString, EmptyString)
            end in
          let t0 := [Stderr ("Downloading CRLSet version " ++ version ++ nl)%string] in
          if (String.length crxURL =? 0)%nat then
            (t0 ++ [Stderr ("Failed to parse Omaha response" ++ nl)%string], false)
          else
            match http_Get crxURL with
            | Err err => (t0 ++ [Stderr ("Failed to get CRX: " ++ err ++ nl)%string], false)
            | Ok (Err err) =>
                (t0 ++ [Stderr ("Failed to download CRX: " ++ err ++ nl)%string], false)
            | Ok (Ok crxBytes) =>
                let '(t1, b) := fetch_crx crxBytes in (t0 ++ t1, b)
            end
      end
  end.

End Fetch.


(** ** Go's [encoding/base64]

    The package lies outside the repository; [base64.DecodeString] follows the
    documented behaviour of [base64.StdEncoding.DecodeString]: carriage returns
    and line feeds are skipped, the rest is read four symbols at a time, and
    only the last group may carry padding.  The text of the error is not used
    by the program and is kept short. *)
Module base64.

Definition symbol (b : byte) : option Z :=
  let n := byte_val b in
  if (65 <=? n) && (n <=? 90) then Some (n - 65)
  else if (97 <=? n) && (n <=? 122) then Some (n - 71)
  else if (48 <=? n) && (n <=? 57) then Some (n + 4)
  else if n =? 43 then Some 62
  else if n =? 47 then Some 63
  else None.

Definition is_pad (b : byte) : bool := byte_val b =? 61.

Definition is_newline (b : byte) : bool := (byte_val b =? 10) || (byte_val b =? 13).

Definition corrupt : string := "illegal base64 data".

Fixpoint quanta (cs : list byte) : result (list byte) :=
  match cs with
  | [] => Ok []
  | a :: b :: c :: d :: rest =>
      match symbol a, symbol b with
      | Some va, Some vb =>
          match symbol c, symbol d with
          | Some vc, Some vd =>
              let v := va * 2 ^ 18 + vb * 2 ^ 12 + vc * 2 ^ 6 + vd in
              match quanta rest with
              | Ok out =>
                  Ok (byte_of_Z (v / 2 ^ 16) :: byte_of_Z (v / 2 ^ 8) :: byte_of_Z v :: out)
              | Err e => Err e
              end
          | Some vc, None =>
              if is_pad d && (len rest =? 0) then
                let v := va * 2 ^ 18 + vb * 2 ^ 12 + vc * 2 ^ 6 in
                Ok [byte_of_Z (v / 2 ^ 16); byte_of_Z (v / 2 ^ 8)]
              else Err corrupt
          | None, _ =>
              if is_pad c && is_pad d && (len rest =? 0) then
                let v := va * 2 ^ 18 + vb * 2 ^ 12 in
                Ok [byte_of_Z (v / 2 ^ 16)]
              else Err corrupt
          end
      | _, _ => Err corrupt
      end
  | _ => Err corrupt
  end.

Definition DecodeString (s : string) : result (list byte) :=
  quanta (filter (fun b => negb (is_newline b)) (list_byte_of_string s)).

End base64.

(** ** Go's [encoding/json]

    The package lies outside the repository; [json.Unmarshal] follows its
    documented behaviour for a [crlSetHeader] target.  The input is first
    checked to be one JSON value (RFC 8259) between optional white space,
    nested at most [maxNestingDepth] deep, and nothing is stored when it is
    not.  An object then fills the fields whose names match its keys, exactly
    or under case folding; [null] stores nothing; a value of the wrong kind
    leaves its target alone, and the first such mismatch is the error
    returned after the whole value was decoded.  Errors are told apart by
    kind: the text Go adds about the offending character is left out, and a
    key that occurs twice is decoded without the array that Go may reuse. *)
Module json.

Inductive word : Type := WTrue | WFalse | WNull.

Inductive token : Type :=
| LBrace | RBrace | LBrack | RBrack | Colon | Comma
| Str (raw : list byte)
| Num (lit : list byte)
| Lit (w : word)
| Unterminated
| Invalid.

Inductive num_state : Type := Neg | Zero | Int | Dot | Frac | Exp | ExpSign | ExpDigits.

Inductive state : Type :=
| BeginValue
| InString (acc : list byte)
| InStringEsc (acc : list byte)
| InStringU (k : nat) (acc : list byte)
| InNumber (s : num_state) (acc : list byte)
| InLiteral (w : word) (rest : list byte).

Definition is_space (b : byte) : bool :=
  let n := byte_val b in (n =? 32) || (n =? 9) || (n =? 13) || (n =? 10).

Definition is_digit (b : byte) : bool := (48 <=? byte_val b) && (byte_val b <=? 57).

Definition is_hex (b : byte) : bool :=
  let n := byte_val b in
  is_digit b || ((97 <=? n) && (n <=? 102)) || ((65 <=? n) && (n <=? 70)).

Definition begin_step (b : byte) : list token * option state :=
  if is_space b then ([], Some BeginValue)
  else
    match b with
    | x7b => ([LBrace], Some BeginValue)
    | x7d => ([RBrace], Some BeginValue)
    | x5b => ([LBrack], Some BeginValue)
    | x5d => ([RBrack], Some BeginValue)
    | x3a => ([Colon], Some BeginValue)
    | x2c => ([Comma], Some BeginValue)
    | x22 => ([], Some (InString []))
    | x2d => ([], Some (InNumber Neg [b]))
    | x30 => ([], Some (InNumber Zero [b]))
    | x74 => ([], Some (InLiteral WTrue (list_byte_of_string "rue")))
    | x66 => ([], Some (InLiteral WFalse (list_byte_of_string "alse")))
    | x6e => ([], Some (InLiteral WNull (list_byte_of_string "ull")))
    | _ => if is_digit b then ([], Some (InNumber Int [b])) else ([Invalid], None)
    end.

Definition is_e (b : byte) : bool := (byte_val b =? 101) || (byte_val b =? 69).
Definition is_sign (b : byte) : bool := (byte_val b =? 43) || (byte_val b =? 45).
Definition is_dot (b : byte) : bool := byte_val b =? 46.

Definition num_step (s : num_state) (b : byte) : option num_state :=
  match s with
  | Neg => if byte_val b =? 48 then Some Zero else if is_digit b then Some Int else None
  | Zero => if is_dot b then Some Dot else if is_e b then Some Exp else None
  | Int =>
      if is_digit b then Some Int
      else if is_dot b then Some Dot else if is_e b then Some Exp else None
  | Dot => if is_digit b then Some Frac else None
  | Frac => if is_digit b then Some Frac else if is_e b then Some Exp else None
  | Exp => if is_sign b then Some ExpSign else if is_digit b then Some ExpDigits else None
  | ExpSign => if is_digit b then Some ExpDigits else None
  | ExpDigits => if is_digit b then Some ExpDigits else None
  end.

Definition num_complete (s : num_state) : bool :=
  match s with
  | Zero | Int | Frac | ExpDigits => true
  | _ => false
  end.

Definition is_escape (b : byte) : bool :=
  match b with
  | x62 | x66 | x6e | x72 | x74 | x5c | x2f | x22 => true
  | _ => false
  end.

Definition step (st : state) (b : byte) : list token * option state :=
  match st with
  | BeginValue => begin_step b
  | InString acc =>
      match b with
      | x22 => ([Str (rev acc)], Some BeginValue)
      | x5c => ([], Some (InStringEsc (b :: acc)))
      | _ => if byte_val b <? 32 then ([Invalid], None) else ([], Some (InString (b :: acc)))
      end
  | InStringEsc acc =>
      if is_escape b then ([], Some (InString (b :: acc)))
      else if byte_val b =? 117 then ([], Some (InStringU 4 (b :: acc)))
      else ([Invalid], None)
  | InStringU k acc =>
      if is_hex b then
        match k with
        | S (S k') => ([], Some (InStringU (S k') (b :: acc)))
        | _ => ([], Some (InString (b :: acc)))
        end
      else ([Invalid], None)
  | InNumber s acc =>
      match num_step s b with
      | Some s' => ([], Some (InNumber s' (b :: acc)))
      | None =>
          if num_complete s then
            let '(ts, o) := begin_step b in (Num (rev acc) :: ts, o)
          else ([Invalid], None)
      end
  | InLiteral w rest =>
      match rest with
      | x :: rest' =>
          if Byte.eqb b x then
            match rest' with
            | [] => ([Lit w], Some BeginValue)
            | _ => ([], Some (InLiteral w rest'))
            end
          else ([Invalid], None)
      | [] => ([Invalid], None)
      end
  end.

(** The scanner, one byte at a time.  Input that ends inside a string is
    [Unterminated]. *)
Fixpoint lex (st : state) (data : list byte) : list token :=
  match data with
  | [] => match st with BeginValue => [] | _ => [Unterminated] end
  | b :: data' =>
      let '(ts, o) := step st b in
      match o with
      | Some st' => ts ++ lex st' data'
      | None => ts
      end
  end.

#[warnings="-register-all"]
Inductive value : Type :=
| Null
| Boolean (b : bool)
| Number (lit : list byte)
| Text (raw : list byte)
| Array (elems : list value)
| Object (members : list (list byte * value)).

Definition maxNestingDepth : Z := 10000.

Definition end_of_input : string := "unexpected end of JSON input".
Definition invalid_character : string := "invalid character".
Definition max_depth : string := "exceeded max depth".

Fixpoint parse_value (fuel : nat) (depth : Z) (ts : list token) : result (value * list token) :=
  match fuel with
  | O => Err end_of_input
  | S fuel' =>
      match ts with
      | [] | Unterminated :: _ => Err end_of_input
      | Str raw :: r => Ok (Text raw, r)
      | Num lit :: r => Ok (Number lit, r)
      | Lit WTrue :: r => Ok (Boolean true, r)
      | Lit WFalse :: r => Ok (Boolean false, r)
      | Lit WNull :: r => Ok (Null, r)
      | LBrack :: r =>
          if maxNestingDepth <=? depth then Err max_depth
          else
            match r with
            | RBrack :: r1 => Ok (Array [], r1)
            | _ =>
                match parse_elements fuel' (depth + 1) r with
                | Ok (vs, r1) => Ok (Array vs, r1)
                | Err e => Err e
                end
            end
      | LBrace :: r =>
          if maxNestingDepth <=? depth then Err max_depth
          else
            match r with
            | RBrace :: r1 => Ok (Object [], r1)
            | _ =>
                match parse_members fuel' (depth + 1) r with
                | Ok (ms, r1) => Ok (Object ms, r1)
                | Err e => Err e
                end
            end
      | _ => Err invalid_character
      end
  end
with parse_elements (fuel : nat) (depth : Z) (ts : list token)
    : result (list value * list token) :=
  match fuel with
  | O => Err end_of_input
  | S fuel' =>
      match parse_value fuel' depth ts with
      | Err e => Err e
      | Ok (v, r) =>
          match r with
          | [] => Err end_of_input
          | RBrack :: r1 => Ok ([v], r1)
          | Comma :: r1 =>
              match parse_elements fuel' depth r1 with
              | Ok (vs, r2) => Ok (v :: vs, r2)
              | Err e => Err e
              end
          | _ => Err invalid_character
          end
      end
  end
with parse_members (fuel : nat) (depth : Z) (ts : list token)
    : result (list (list byte * value) * list token) :=
  match fuel with
  | O => Err end_of_input
  | S fuel' =>
      match ts with
      | [] | Unterminated :: _ | [Str _] => Err end_of_input
      | Str key :: Colon :: r =>
          match parse_value fuel' depth r with
          | Err e => Err e
          | Ok (v, r1) =>
              match r1 with
              | [] => Err end_of_input
              | RBrace :: r2 => Ok ([(key, v)], r2)
              | Comma :: r2 =>
                  match parse_members fuel' depth r2 with
                  | Ok (ms, r3) => Ok ((key, v) :: ms, r3)
                  | Err e => Err e
                  end
              | _ => Err invalid_character
              end
          end
      | _ => Err invalid_character
      end
  end.

(** The syntax check and the value it found.  The scanner is fed a space at
    the end of the input, as Go's is, to close a number. *)
Definition parse (data : list byte) : result value :=
  let ts := lex BeginValue (data ++ [x20]) in
  match parse_value (2 * List.length ts + 2) 0 ts with
  | Err e => Err e
  | Ok (v, []) => Ok v
  | Ok (_, _ :: _) => Err invalid_character
  end.

(** *** Strings *)

Definition at_ (s : list byte) (i : nat) : Z :=
  match nth_error s i with
  | Some b => byte_val b
  | None => -1
  end.

Definition between (lo x hi : Z) : bool := (lo <=? x) && (x <=? hi).

(** The length of the well-formed UTF-8 sequence that starts [s], or [0]. *)
Definition utf8_len (s : list byte) : nat :=
  let b0 := at_ s 0 in
  let b1 := at_ s 1 in
  let cont i := between 128 (at_ s i) 191 in
  if between 194 b0 223 && cont 1%nat then 2
  else if (b0 =? 224) && between 160 b1 191 && cont 2%nat then 3
  else if (between 225 b0 236 || between 238 b0 239) && cont 1%nat && cont 2%nat then 3
  else if (b0 =? 237) && between 128 b1 159 && cont 2%nat then 3
  else if (b0 =? 240) && between 144 b1 191 && cont 2%nat && cont 3%nat then 4
  else if between 241 b0 243 && cont 1%nat && cont 2%nat && cont 3%nat then 4
  else if (b0 =? 244) && between 128 b1 143 && cont 2%nat && cont 3%nat then 4
  else 0.

Definition replacement : list byte := [xef; xbf; xbd].

(** [utf8.EncodeRune]. *)
Definition EncodeRune (r : Z) : list byte :=
  if r <? 128 then [byte_of_Z r]
  else if r <? 2048 then [byte_of_Z (192 + r / 64); byte_of_Z (128 + r mod 64)]
  else if between 55296 r 57343 || (1114111 <? r) then replacement
  else if r <? 65536 then
    [byte_of_Z (224 + r / 4096); byte_of_Z (128 + (r / 64) mod 64); byte_of_Z (128 + r mod 64)]
  else
    [byte_of_Z (240 + r / 262144); byte_of_Z (128 + (r / 4096) mod 64);
     byte_of_Z (128 + (r / 64) mod 64); byte_of_Z (128 + r mod 64)].

Definition hex_value (b : byte) : Z :=
  let n := byte_val b in
  if n <=? 57 then n - 48 else if n <=? 70 then n - 55 else n - 87.

(** The code unit of an escape [\uXXXX] that starts [s], or [-1]. *)
Definition getu4 (s : list byte) : Z :=
  match s with
  | x5c :: x75 :: h1 :: h2 :: h3 :: h4 :: _ =>
      if is_hex h1 && is_hex h2 && is_hex h3 && is_hex h4 then
        hex_value h1 * 4096 + hex_value h2 * 256 + hex_value h3 * 16 + hex_value h4
      else -1
  | _ => -1
  end.

Definition escape_char (b : byte) : byte :=
  match b with
  | x62 => x08
  | x66 => x0c
  | x6e => x0a
  | x72 => x0d
  | x74 => x09
  | _ => b
  end.

(** The bytes of a string literal, between its quotes, as the Go string they
    denote. *)
Fixpoint unquote (fuel : nat) (s : list byte) : list byte :=
  match fuel with
  | O => []
  | S fuel' =>
      match s with
      | [] => []
      | x5c :: x75 :: _ =>
          let rr := getu4 s in
          let s1 := skipn 6 s in
          if between 55296 rr 57343 then
            let rr1 := getu4 s1 in
            if (rr <? 56320) && between 56320 rr1 57343 then
              EncodeRune ((rr - 55296) * 1024 + (rr1 - 56320) + 65536)
                ++ unquote fuel' (skipn 6 s1)
            else replacement ++ unquote fuel' s1
          else EncodeRune rr ++ unquote fuel' s1
      | x5c :: b :: s1 => escape_char b :: unquote fuel' s1
      | b :: s1 =>
          if byte_val b <? 128 then b :: unquote fuel' s1
          else
            match utf8_len s with
            | O => replacement ++ unquote fuel' s1
            | n => firstn n s ++ unquote fuel' (skipn n s)
            end
      end
  end.

Definition string_of (raw : list byte) : string :=
  string_of_list_byte (unquote (S (List.length raw)) raw).

(** *** Fields *)

Definition upper (b : byte) : byte :=
  if between 97 (byte_val b) 122 then byte_of_Z (byte_val b - 32) else b.

(** Case folding of a key: letters go to upper case, and so do the Kelvin
    sign and the long s, the two letters outside ASCII that fold into it. *)
Fixpoint foldName (s : list byte) : list byte :=
  match s with
  | [] => []
  | b :: r =>
      match r with
      | b2 :: r2 =>
          if Byte.eqb b xc5 && Byte.eqb b2 xbf then x53 :: foldName r2
          else
            match r2 with
            | b3 :: r3 =>
                if Byte.eqb b xe2 && Byte.eqb b2 x84 && Byte.eqb b3 xaa
                then x4b :: foldName r3
                else upper b :: foldName r
            | [] => upper b :: foldName r
            end
      | [] => [upper b]
      end
  end.

Inductive field : Type :=
| FSequence | FNumParents | FBlockedSPKIs | FKnownInterceptionSPKIs
| FBlockedInterceptionSPKIs.

Definition field_name (f : field) : string :=
  match f with
  | FSequence => "Sequence"
  | FNumParents => "NumParents"
  | FBlockedSPKIs => "BlockedSPKIs"
  | FKnownInterceptionSPKIs => "KnownInterceptionSPKIs"
  | FBlockedInterceptionSPKIs => "BlockedInterceptionSPKIs"
  end.

Definition all_fields : list field :=
  [FSequence; FNumParents; FBlockedSPKIs; FKnownInterceptionSPKIs; FBlockedInterceptionSPKIs].

Definition find_field (key : string) : option field :=
  let folded := foldName (list_byte_of_string key) in
  find (fun f => bytes_Equal folded (foldName (list_byte_of_string (field_name f)))) all_fields.

(** *** Storing *)

Definition kind (v : value) : string :=
  match v with
  | Null => "null"
  | Boolean _ => "bool"
  | Number _ => "number"
  | Text _ => "string"
  | Array _ => "array"
  | Object _ => "object"
  end.

Definition type_error (what : string) (f : field) (type : string) : string :=
  ("json: cannot unmarshal " ++ what ++ " into Go struct field crlSetHeader."
   ++ field_name f ++ " of type " ++ type)%string.

Fixpoint digits (acc : Z) (s : list byte) : option Z :=
  match s with
  | [] => Some acc
  | b :: s' => if is_digit b then digits (10 * acc + (byte_val b - 48)) s' else None
  end.

(** [strconv.ParseInt(lit, 10, 64)] on a JSON number. *)
Definition ParseInt (lit : list byte) : option Z :=
  let v :=
    match lit with
    | x2d :: s => option_map Z.opp (digits 0 s)
    | _ => digits 0 lit
    end in
  match v with
  | Some n => if (- 2 ^ 63 <=? n) && (n <? 2 ^ 63) then Some n else None
  | None => None
  end.

(** [saveError]: the first error stays. *)
Definition saveError (old : option string) (e : string) : option string :=
  match old with
  | Some _ => old
  | None => Some e
  end.

Definition store_int (f : field) (v : value) (old : Z) (err : option string)
    : Z * option string :=
  match v with
  | Null => (old, err)
  | Number lit =>
      match ParseInt lit with
      | Some n => (n, err)
      | None =>
          (old, saveError err (type_error ("number " ++ string_of_list_byte lit) f "int"))
      end
  | _ => (old, saveError err (type_error (kind v) f "int"))
  end.

Fixpoint store_elements (f : field) (elems : list value) (err : option string)
    : list string * option string :=
  match elems with
  | [] => ([], err)
  | e :: elems' =>
      let '(x, err1) :=
        match e with
        | Text raw => (string_of raw, err)
        | Null => (EmptyString, err)
        | _ => (EmptyString, saveError err (type_error (kind e) f "string"))
        end in
      let '(xs, err2) := store_elements f elems' err1 in
      (x :: xs, err2)
  end.

Definition store_strings (f : field) (v : value) (old : list string) (err : option string)
    : list string * option string :=
  match v with
  | Null => ([], err)
  | Array elems => store_elements f elems err
  | _ => (old, saveError err (type_error (kind v) f "[]string"))
  end.

Definition store_field (f : field) (v : value) (h : crlSetHeader) (err : option string)
    : crlSetHeader * option string :=
  match f with
  | FSequence =>
      let '(n, err') := store_int f v (Sequence h) err in
      ({| Sequence := n; NumParents := NumParents h; BlockedSPKIs := BlockedSPKIs h;
          KnownInterceptionSPKIs := KnownInterceptionSPKIs h;
          BlockedInterceptionSPKIs := BlockedInterceptionSPKIs h |}, err')
  | FNumParents =>
      let '(n, err') := store_int f v (NumParents h) err in
      ({| Sequence := Sequence h; NumParents := n; BlockedSPKIs := BlockedSPKIs h;
          KnownInterceptionSPKIs := KnownInterceptionSPKIs h;
          BlockedInterceptionSPKIs := BlockedInterceptionSPKIs h |}, err')
  | FBlockedSPKIs =>
      let '(l, err') := store_strings f v (BlockedSPKIs h) err in
      ({| Sequence := Sequence h; NumParents := NumParents h; BlockedSPKIs := l;
          KnownInterceptionSPKIs := KnownInterceptionSPKIs h;
          BlockedInterceptionSPKIs := BlockedInterceptionSPKIs h |}, err')
  | FKnownInterceptionSPKIs =>
      let '(l, err') := store_strings f v (KnownInterceptionSPKIs h) err in
      ({| Sequence := Sequence h; NumParents := NumParents h; BlockedSPKIs := BlockedSPKIs h;
          KnownInterceptionSPKIs := l;
          BlockedInterceptionSPKIs := BlockedInterceptionSPKIs h |}, err')
  | FBlockedInterceptionSPKIs =>
      let '(l, err') := store_strings f v (BlockedInterceptionSPKIs h) err in
      ({| Sequence := Sequence h; NumParents := NumParents h; BlockedSPKIs := BlockedSPKIs h;
          KnownInterceptionSPKIs := KnownInterceptionSPKIs h;
          BlockedInterceptionSPKIs := l |}, err')
  end.

Fixpoint store_members (ms : list (list byte * value)) (h : crlSetHeader)
    (err : option string) : crlSetHeader * option string :=
  match ms with
  | [] => (h, err)
  | (key, v) :: ms' =>
      let '(h1, err1) :=
        match find_field (string_of key) with
        | Some f => store_field f v h err
        | None => (h, err)
        end in
      store_members ms' h1 err1
  end.

(** [json.Unmarshal(data, &header)]: the header after the call, and the
    error. *)
Definition Unmarshal (data : list byte) (header : crlSetHeader) : crlSetHeader * option string :=
  match parse data with
  | Err e => (header, Some e)
  | Ok (Object ms) => store_members ms header None
  | Ok Null => (header, None)
  | Ok v =>
      (header,
       Some ("json: cannot unmarshal " ++ kind v ++ " into Go value of type main.crlSetHeader")%string)
  end.

End json.

(** ** The layout of a CRLSet

    The body of a CRLSet file as the format lays it out: blocks of a 32-byte
    fingerprint, a little-endian 32-bit count and that many serials, each a
    length byte and its bytes. *)

Record block : Type := { fingerprint : list byte; serials : list (list byte) }.

Definition le_bytes32 (n : Z) : list byte :=
  [byte_of_Z n; byte_of_Z (n / 2 ^ 8); byte_of_Z (n / 2 ^ 16); byte_of_Z (n / 2 ^ 24)].

Definition le_bytes16 (n : Z) : list byte := [byte_of_Z n; byte_of_Z (n / 2 ^ 8)].

Definition encode_serial (s : list byte) : list byte := byte_of_Z (len s) :: s.

Definition encode_serials (ss : list (list byte)) : list byte := flat_map encode_serial ss.

Definition encode_block (b : block) : list byte :=
  fingerprint b ++ le_bytes32 (len (serials b)) ++ encode_serials (serials b).

Definition encode_body (bs : list block) : list byte := flat_map encode_block bs.

Definition wf_serial (s : list byte) : Prop := len s <= 255.

Definition wf_block (b : block) : Prop :=
  len (fingerprint b) = 32 /\ len (serials b) < 2 ^ 32 /\ Forall wf_serial (serials b).

Definition block_size (b : block) : Z :=
  32 + 4 + fold_right (fun s acc => 1 + len s + acc) 0 (serials b).

Definition body_size (bs : list block) : Z :=
  fold_right (fun b acc => block_size b + acc) 0 bs.

(** A CRLSet file: the 16-bit length of the header, the header, the body. *)
Definition encode_file (headerBytes : list byte) (bs : list block) : list byte :=
  le_bytes16 (len headerBytes) ++ headerBytes ++ encode_body bs.

(** What [dump] prints for a block: every serial with the fingerprint when
    there is no filter, the serials alone when the filter is the fingerprint,
    nothing otherwise. *)
Definition block_lines (spki : list byte) (b : block) : list string :=
  if len spki =? 0 then map (fmt_record (fingerprint b)) (serials b)
  else if bytes_Equal spki (fingerprint b) then map fmt_serial (serials b)
  else [].

Definition serial_lines (spki fp : list byte) (ss : list (list byte)) : list string :=
  block_lines spki {| fingerprint := fp; serials := ss |}.

(** The four places where the body can run out. *)
Inductive stage : Type := SPKIHash | SerialCount | SerialLength | Serial.

Definition stage_name (s : stage) : string :=
  match s with
  | SPKIHash => "SPKI hash"
  | SerialCount => "serial count"
  | SerialLength => "serial length"
  | Serial => "serial"
  end.

Definition truncated_at (s : stage) : string := ("CRLSet truncated at " ++ stage_name s ++ nl)%string.

(** A block cut short: the bytes that are there, the serials that are whole
    and the stage at which the bytes run out. *)
Inductive cut_block : stage -> list byte -> list byte -> list (list byte) -> Prop :=
| cut_hash : forall c,
    0 < len c < 32 ->
    cut_block SPKIHash c c []
| cut_count : forall fp c,
    len fp = 32 -> len c < 4 ->
    cut_block SerialCount (fp ++ c) fp []
| cut_length : forall fp n ss,
    len fp = 32 -> Forall wf_serial ss -> len ss < n < 2 ^ 32 ->
    cut_block SerialLength (fp ++ le_bytes32 n ++ encode_serials ss) fp ss
| cut_serial : forall fp n ss l c,
    len fp = 32 -> Forall wf_serial ss -> len ss < n < 2 ^ 32 -> len c < byte_val l ->
    cut_block Serial (fp ++ le_bytes32 n ++ encode_serials ss ++ l :: c) fp ss.

(** The loops with the fuel their cursor calls for. *)
Definition run_serials (spki current_spki : list byte) (spkiMatches : bool)
    (numSerials i : Z) (c : list byte) : option (list event * flow) :=
  serial_loop (S (List.length c)) spki current_spki spkiMatches numSerials i c.

Definition run_dump (spki c : list byte) : option (list event * flow) :=
  dump_loop (List.length c) spki c.

(** A run that comes after the events [t0]. *)
Definition after {A : Type} (t0 : list event) (r : option (list event * A))
    : option (list event * A) :=
  match r with
  | Some (t, x) => Some (t0 ++ t, x)
  | None => None
  end.

(** What is left of an iteration of the body loop once the serials of its
    block were read. *)
Definition then_dump (spki : list byte) (r : option (list event * flow))
    : option (list event * flow) :=
  match r with
  | Some (t, Next c) => after t (run_dump spki c)
  | Some (t, Return b) => Some (t, Return b)
  | None => None
  end.

Definition current_spki_of (spki fp : list byte) : list byte :=
  if len spki =? 0 then fp else [].

(** The events of the whole serials of a block, and of whole blocks. *)
Definition serial_events (spki fp : list byte) (ss : list (list byte)) : list event :=
  flat_map (print_serial spki (current_spki_of spki fp) (bytes_Equal spki fp)) ss.

Definition body_events (spki : list byte) (bs : list block) : list event :=
  flat_map (fun b => serial_events spki (fingerprint b) (serials b)) bs.

(** ** Sample data *)

Definition fp00 : list byte := repeat x00 32.
Definition fpff : list byte := repeat xff 32.

Definition block_ex : block :=
  {| fingerprint := fp00; serials := [[xab]; [x01; x02]] |}.

(** One block with fingerprint [00 x 32], count 2, and the serials [AB] and
    [01 02]. *)
Definition body_ex : list byte :=
  fp00 ++ [x02; x00; x00; x00] ++ [x01; xab] ++ [x02; x01; x02].

(** The same block with a count of 3. *)
Definition body_count3 : list byte :=
  fp00 ++ [x03; x00; x00; x00] ++ [x01; xab] ++ [x02; x01; x02].

(** Two blocks that carry the same fingerprint. *)
Definition block_dup1 : block := {| fingerprint := fp00; serials := [[xab]] |}.
Definition block_dup2 : block := {| fingerprint := fp00; serials := [[xcd]; [xef]] |}.
Definition body_dup : list block := [block_dup1; block_dup2].

(** The lines of the blocks whose fingerprint is the filter, in block order. *)
Definition matching_lines (spki : list byte) (bs : list block) : list string :=
  List.concat (map (fun b => map fmt_serial (serials b))
              (filter (fun b => bytes_Equal spki (fingerprint b)) bs)).

(** A file system with one file. *)
Definition single_file (name : string) (content : list byte) : string -> result (list byte) :=
  fun f =>
    if String.eqb f name then Ok content
    else Err ("open " ++ f ++ ": no such file or directory")%string.

(** Collaborators for a run that reads no certificate. *)
Definition no_pem : list byte -> option (list byte) := fun _ => None.
Definition no_certificate : list byte -> result (list byte) :=
  fun _ => Err "x509: malformed certificate".
Definition no_digest : list byte -> list byte := fun _ => [].

(** The sample block behind an empty header, behind the header [{}], and
    behind a header that is an array. *)
Definition file_empty_header : list byte := [x00; x00] ++ body_ex.
Definition file_ex : list byte := encode_file (list_byte_of_string "{}") [block_ex].

(** The line [dumpSPKIs] prints for a digest, and the digests of the entries
    of a list that decode. *)
Definition spki_line (spkiBytes : list byte) : string :=
  (tab ++ tab ++ "\\x" ++ hex spkiBytes ++ nl)%string.

Definition valid_digests (decode : string -> result (list byte)) (l : list string)
    : list (list byte) :=
  flat_map (fun s => match decode s with Ok d => [d] | Err _ => [] end) l.

Definition all_spkis (header : crlSetHeader) : list string :=
  BlockedSPKIs header ++ KnownInterceptionSPKIs header ++ BlockedInterceptionSPKIs header.

(** What [getHeader] makes of the header bytes once it has them. *)
Definition parsed_header
    (json_Unmarshal : list byte -> crlSetHeader -> crlSetHeader * option string)
    (headerBytes body : list byte) : list event * (crlSetHeader * list byte * bool) :=
  match json_Unmarshal headerBytes zero_header with
  | (header, Some err) =>
      ([Stderr ("Failed to parse header: " ++ err)%string], (header, [], false))
  | (header, None) => ([], (header, body, true))
  end.

(** A header with two lists, one entry of which is not base64. *)
Definition header_spkis : list byte :=
  list_byte_of_string
    ("{" ++ quote ++ "Sequence" ++ quote ++ ":7,"
     ++ quote ++ "BlockedSPKIs" ++ quote ++ ":[" ++ quote ++ "AAEC" ++ quote ++ ","
     ++ quote ++ "!!!" ++ quote ++ "],"
     ++ quote ++ "KnownInterceptionSPKIs" ++ quote ++ ":[" ++ quote ++ "/w==" ++ quote ++ "]}")%string.

Definition file_spkis : list byte := encode_file header_spkis [].

(** An archive reader that finds no archive. *)
Definition no_zip (r : list byte -> Z -> go (list byte * (Z * option string))) (size : Z)
    : result (list zip_File) :=
  Err "zip: not a valid zip file".

(** Four bytes that are not the magic, alone and at the head of twelve. *)
Definition crx_short : list byte := list_byte_of_string "Xr24".
Definition crx_bad_magic : list byte := list_byte_of_string "Xr24" ++ repeat x00 8.

(** ** [main] *)

Section Main.

Variable ReadFile : string -> result (list byte).
Variable json_Unmarshal : list byte -> crlSetHeader -> crlSetHeader * option string.
Variable pem_Decode : list byte -> option (list byte).
Variable x509_ParseCertificate : list byte -> result (list byte).
Variable sha256_Sum : list byte -> list byte.
Variable base64_DecodeString : string -> result (list byte).
Variable http_Get : string -> result (result (list byte)).
Variable xml_Unmarshal : list byte -> update -> update * option string.
Variable zip_NewReader :
  (list byte -> Z -> go (list byte * (Z * option string))) -> Z -> result (list zip_File).

(** [usage]: indexing [os.Args] panics when it is empty. *)
Definition usage (Args : list string) : go (list event) :=
  match Args with
  | arg0 :: _ =>
      Ret [Stderr (arg0 ++ ": { fetch | dumpSPKIs <filename> | dump <filename> [<cert filename>] }"
                   ++ nl)%string]
  | [] => Panic "index out of range"
  end.

(** [os.Args[i]], read where the length of [os.Args] was tested. *)
Definition arg (Args : list string) (i : nat) : string := nth i Args EmptyString.

(** The [switch] of [main]: the trace of the operation, [result] and
    [needUsage]. *)
Definition main_switch (Args : list string) : option (list event * bool * bool) :=
  if String.eqb (arg Args 1) "fetch" then
    if (List.length Args =? 2)%nat then
      let '(t, result) := fetch http_Get xml_Unmarshal zip_NewReader in
      Some (t, result, false)
    else Some ([], false, true)
  else if String.eqb (arg Args 1) "dump" then
    if (List.length Args =? 3)%nat then
      match dump ReadFile json_Unmarshal pem_Decode x509_ParseCertificate sha256_Sum
                 (arg Args 2) EmptyString with
      | Some (t, result) => Some (t, result, false)
      | None => None
      end
    else if (List.length Args =? 4)%nat then
      match dump ReadFile json_Unmarshal pem_Decode x509_ParseCertificate sha256_Sum
                 (arg Args 2) (arg Args 3) with
      | Some (t, result) => Some (t, result, false)
      | None => None
      end
    else Some ([], false, true)
  else if String.eqb (arg Args 1) "dumpSPKIs" then
    if (List.length Args =? 3)%nat then
      let '(t, result) := dumpSPKIs ReadFile json_Unmarshal base64_DecodeString (arg Args 2) in
      Some (t, result, false)
    else Some ([], false, true)
  else Some ([], false, true).

(** [main]: the trace and the exit status of the process, [1] after
    [os.Exit(1)] and [0] when [main] returns. *)
Definition main (Args : list string) : option (go (list event * Z)) :=
  if (List.length Args <? 2)%nat then
    match usage Args with
    | Ret t => Some (Ret (t, 1))
    | Panic msg => Some (Panic msg)
    end
  else
    match main_switch Args with
    | None => None
    | Some (t, result, needUsage) =>
        match (if needUsage then usage Args else Ret []) with
        | Ret tu => Some (Ret (t ++ tu, if result then 0 else 1))
        | Panic msg => Some (Panic msg)
        end
    end.

End Main.

(** The lines [dump] prints without a filter: every serial of every block,
    with the fingerprint of its block. *)
Definition record_lines (bs : list block) : list string :=
  flat_map (fun b => map (fmt_record (fingerprint b)) (serials b)) bs.

(** The bytes [dump] hands to [x509.ParseCertificate]. *)
Definition der_bytes (pem_Decode : list byte -> option (list byte)) (certBytes : list byte)
    : list byte :=
  match pem_Decode certBytes with
  | None => certBytes
  | Some blockBytes => blockBytes
  end.

(** The entries of a list that do not decode. *)
Definition invalid_entries (decode : string -> result (list byte)) (l : list string)
    : list string :=
  filter (fun s => match decode s with Ok _ => false | Err _ => true end) l.

(** A CRX container: the magic, a version, the length of the signed header,
    the signed header and the archive. *)
Definition encode_crx (version signedHeader zipBytes : list byte) : list byte :=
  magic ++ version ++ le_bytes32 (len signedHeader) ++ signedHeader ++ zipBytes.

(** What [fetch] does with the answer of the archive reader. *)
Definition extract_crl_set (r : result (list zip_File)) : list event * bool :=
  match r with
  | Err err => ([Stderr ("Failed to parse ZIP file: " ++ err ++ nl)%string], false)
  | Ok files =>
      match find (fun file => String.eqb (Name file) "crl-set") files with
      | None => ([Stderr ("Downloaded CRX didn't contain a CRLSet" ++ nl)%string], false)
      | Some crlFile =>
          match Open crlFile with
          | Err err => ([Stderr ("Failed to open crl-set in ZIP: " ++ err ++ nl)%string], false)
          | Ok crlSet => ([Stdout (string_of_list_byte crlSet)], true)
          end
      end
  end.

(** The four forms of the command line that [main] runs. *)
Definition runs_operation (Args : list string) : bool :=
  match Args with
  | [_; cmd] => String.eqb cmd "fetch"
  | [_; cmd; _] => String.eqb cmd "dump" || String.eqb cmd "dumpSPKIs"
  | [_; cmd; _; _] => String.eqb cmd "dump"
  | _ => false
  end.

(** A file system with two files. *)
Definition two_files (name1 : string) (content1 : list byte) (name2 : string)
    (content2 : list byte) : string -> result (list byte) :=
  fun f =>
    if String.eqb f name1 then Ok content1
    else if String.eqb f name2 then Ok content2
    else Err ("open " ++ f ++ ": no such file or directory")%string.

(** Collaborators for a run with a certificate whose key has the digest
    [00 x 32]: the parser hands back the bytes it is given. *)
Definition sample_certificate : list byte -> result (list byte) := fun der => Ok der.
Definition sample_digest : list byte -> list byte := fun _ => fp00.

(** An archive reader for an archive that stores one entry, [crl-set], as
    the bytes of the archive themselves: it reads them through the reader. *)
Definition stored_zip (r : list byte -> Z -> go (list byte * (Z * option string))) (size : Z)
    : result (list zip_File) :=
  match r (repeat x00 (Z.to_nat size)) 0 with
  | Ret (p, _) => Ok [{| Name := "crl-set"; Open := Ok p |}]
  | Panic msg => Err msg
  end.

(** A version reply with one application, and a network that serves it and
    one container. *)
Definition sample_reply (url : string) : update :=
  {| Apps := [{| AppId := "other"; UpdateCheck := {| URL := "http://example/other"; Version := "1" |} |};
              {| AppId := crlSetAppId; UpdateCheck := {| URL := url; Version := "56" |} |}] |}.

Definition sample_http (crxURL : string) (crxBytes : list byte)
    : string -> result (result (list byte)) :=
  fun url =>
    if String.eqb url buildVersionRequestURL then Ok (Ok [])
    else if String.eqb url crxURL then Ok (Ok crxBytes)
    else Err "no such host".

Definition sample_xml (url : string) : list byte -> update -> update * option string :=
  fun _ _ => (sample_reply url, None).

(** The revocations a body lists: every serial with the fingerprint of its
    block. *)
Definition pairs_of (bs : list block) : list (list byte * list byte) :=
  flat_map (fun b => map (pair (fingerprint b)) (serials b)) bs.

(** ** Bytes and slices *)

Lemma byte_val_range (b : byte) : 0 <= byte_val b < 256.
Proof.
  unfold byte_val. pose proof (Byte.to_N_bounded b). lia.
Qed.

Lemma byte_val_of_Z (z : Z) : 0 <= z < 256 -> byte_val (byte_of_Z z) = z.
Proof.
  intros Hz. unfold byte_val, byte_of_Z.
  rewrite Z.mod_small by lia.
  destruct (Byte.of_N (Z.to_N z)) as [b|] eqn:E.
  - apply Byte.to_of_N in E. rewrite E. lia.
  - apply Byte.of_N_None_iff in E. lia.
Qed.

Lemma byte_val_of_Z_mod (z : Z) : byte_val (byte_of_Z z) = z mod 256.
Proof.
  unfold byte_of_Z. pose proof (Z.mod_pos_bound z 256 ltac:(lia)) as Hm.
  destruct (Byte.of_N (Z.to_N (z mod 256))) as [b|] eqn:E.
  - unfold byte_val. apply Byte.to_of_N in E. rewrite E. lia.
  - apply Byte.of_N_None_iff in E. lia.
Qed.

Lemma byte_of_Z_val (b : byte) : byte_of_Z (byte_val b) = b.
Proof.
  unfold byte_of_Z, byte_val. pose proof (Byte.to_N_bounded b).
  rewrite Z.mod_small by lia. rewrite N2Z.id, Byte.of_to_N. reflexivity.
Qed.

Lemma len_nonneg {A : Type} (c : list A) : 0 <= len c.
Proof. unfold len. lia. Qed.

Lemma len_app {A : Type} (a b : list A) : len (a ++ b) = len a + len b.
Proof. unfold len. rewrite length_app. lia. Qed.

Lemma len_cons {A : Type} (x : A) (c : list A) : len (x :: c) = 1 + len c.
Proof. unfold len. simpl List.length. lia. Qed.

Lemma len_nil {A : Type} : len (@nil A) = 0.
Proof. reflexivity. Qed.

Lemma slice_to_app {A : Type} (a b : list A) (k : Z) :
  k = len a -> slice_to (a ++ b) k = a.
Proof.
  intros ->. unfold slice_to, len. rewrite Nat2Z.id.
  rewrite firstn_app, Nat.sub_diag, firstn_all. simpl. apply app_nil_r.
Qed.

Lemma slice_from_app {A : Type} (a b : list A) (k : Z) :
  k = len a -> slice_from (a ++ b) k = b.
Proof.
  intros ->. unfold slice_from, len. rewrite Nat2Z.id.
  rewrite skipn_app, Nat.sub_diag, skipn_all. reflexivity.
Qed.

Lemma len_slice_from {A : Type} (c : list A) (k : Z) :
  0 <= k <= len c -> len (slice_from c k) = len c - k.
Proof.
  unfold slice_from, len. intros H. rewrite length_skipn. lia.
Qed.

Lemma len_slice_to {A : Type} (c : list A) (k : Z) :
  0 <= k <= len c -> len (slice_to c k) = k.
Proof.
  unfold slice_to, len. intros H. rewrite length_firstn. lia.
Qed.

Lemma slice_to_from {A : Type} (c : list A) (k : Z) : slice_to c k ++ slice_from c k = c.
Proof. apply firstn_skipn. Qed.

Lemma bytes_Equal_spec (a b : list byte) : bytes_Equal a b = true <-> a = b.
Proof.
  revert b. induction a as [|x a IH]; intros [|y b]; simpl; split; intros H;
    try reflexivity; try discriminate.
  - apply andb_prop in H as [Hx Hab]. apply Byte.byte_dec_bl in Hx.
    apply IH in Hab. congruence.
  - injection H as -> ->. rewrite Byte.byte_dec_lb by reflexivity.
    simpl. apply IH. reflexivity.
Qed.

Lemma bytes_Equal_refl (a : list byte) : bytes_Equal a a = true.
Proof. apply bytes_Equal_spec. reflexivity. Qed.

(** ** Little-endian integers *)

Lemma lor_shiftl_add (a b k : Z) :
  0 <= k -> 0 <= a < 2 ^ k -> Z.lor a (Z.shiftl b k) = a + b * 2 ^ k.
Proof.
  intros Hk Ha.
  assert (Hland : Z.land a (Z.shiftl b k) = 0).
  { apply Z.bits_inj'. intros i Hi. rewrite Z.land_spec, Z.bits_0.
    destruct (Z_lt_le_dec i k) as [Hlt|Hle].
    - rewrite Z.shiftl_spec_low by lia. apply andb_false_r.
    - rewrite <- (Z.mod_small a (2 ^ k)) by lia.
      rewrite Z.mod_pow2_bits_high by lia. reflexivity. }
  rewrite <- Z.lxor_lor by exact Hland.
  rewrite <- Z.add_nocarry_lxor by exact Hland.
  rewrite Z.shiftl_mul_pow2 by lia. reflexivity.
Qed.

Lemma uint32_of_bytes (b0 b1 b2 b3 : Z) :
  0 <= b0 < 256 -> 0 <= b1 < 256 -> 0 <= b2 < 256 -> 0 <= b3 < 256 ->
  u32 (Z.lor (Z.lor (Z.lor b0 (u32 (Z.shiftl b1 8))) (u32 (Z.shiftl b2 16)))
             (u32 (Z.shiftl b3 24)))
  = b0 + 2 ^ 8 * b1 + 2 ^ 16 * b2 + 2 ^ 24 * b3.
Proof.
  intros H0 H1 H2 H3. unfold u32.
  rewrite !Z.shiftl_mul_pow2 by lia.
  rewrite (Z.mod_small (b1 * 2 ^ 8)) by lia.
  rewrite (Z.mod_small (b2 * 2 ^ 16)) by lia.
  rewrite (Z.mod_small (b3 * 2 ^ 24)) by lia.
  rewrite <- !Z.shiftl_mul_pow2 by lia.
  rewrite (lor_shiftl_add b0 b1 8) by lia.
  rewrite (lor_shiftl_add (b0 + b1 * 2 ^ 8) b2 16) by lia.
  rewrite (lor_shiftl_add (b0 + b1 * 2 ^ 8 + b2 * 2 ^ 16) b3 24) by lia.
  rewrite Z.mod_small by lia. lia.
Qed.

Lemma uint16_of_bytes (b0 b1 : Z) :
  0 <= b0 < 256 -> 0 <= b1 < 256 ->
  Z.lor b0 (Z.shiftl b1 8) = b0 + 2 ^ 8 * b1.
Proof.
  intros H0 H1. rewrite lor_shiftl_add by lia. lia.
Qed.

Lemma le_digits32 (n : Z) :
  0 <= n < 2 ^ 32 ->
  n mod 256 + 2 ^ 8 * ((n / 2 ^ 8) mod 256) + 2 ^ 16 * ((n / 2 ^ 16) mod 256)
  + 2 ^ 24 * ((n / 2 ^ 24) mod 256) = n.
Proof.
  intros Hn. change (2 ^ 8) with 256. change (2 ^ 16) with 65536.
  change (2 ^ 24) with 16777216. change (2 ^ 32) with 4294967296 in Hn.
  Z.to_euclidean_division_equations. lia.
Qed.

Lemma le_digits16 (n : Z) :
  0 <= n < 2 ^ 16 -> n mod 256 + 2 ^ 8 * ((n / 2 ^ 8) mod 256) = n.
Proof.
  intros Hn. change (2 ^ 8) with 256. change (2 ^ 16) with 65536 in Hn.
  Z.to_euclidean_division_equations. lia.
Qed.

(** ** The loops do not depend on their fuel *)

Lemma length_slice_from_le {A : Type} (c : list A) (k : Z) :
  (List.length (slice_from c k) <= List.length c)%nat.
Proof. unfold slice_from. rewrite length_skipn. lia. Qed.

Lemma length_slice_from_1 (c : list byte) :
  (len c <? 1) = false -> (List.length (slice_from c 1) < List.length c)%nat.
Proof.
  intros H. apply Z.ltb_ge in H. unfold len in H.
  unfold slice_from. rewrite length_skipn. lia.
Qed.

Lemma serial_loop_fuel (f1 f2 : nat) spki cur m n i c :
  (List.length c < f1)%nat -> (List.length c < f2)%nat ->
  serial_loop f1 spki cur m n i c = serial_loop f2 spki cur m n i c.
Proof.
  revert f2 i c. induction f1 as [|f1 IH]; intros f2 i c H1 H2; [lia|].
  destruct f2 as [|f2]; [lia|].
  cbn [serial_loop].
  destruct (i <? n); [|reflexivity].
  destruct (len c <? 1) eqn:E1; [reflexivity|].
  destruct (len (slice_from c 1) <? byte_val (index c 0)); [reflexivity|].
  pose proof (length_slice_from_1 c E1) as Hlt.
  pose proof (length_slice_from_le (slice_from c 1) (byte_val (index c 0))) as Hle.
  rewrite (IH f2) by lia. reflexivity.
Qed.

(** The inner loop hands back a cursor that is no longer than the one it got. *)
Lemma serial_loop_shrinks (fuel : nat) spki cur m n i c t c' :
  serial_loop fuel spki cur m n i c = Some (t, Next c') ->
  (List.length c' <= List.length c)%nat.
Proof.
  revert i c t. induction fuel as [|fuel IH]; intros i c t; cbn [serial_loop].
  - destruct (i <? n); [discriminate|]. intros H. injection H as _ <-. lia.
  - destruct (i <? n).
    + destruct (len c <? 1) eqn:E1; [discriminate|].
      destruct (len (slice_from c 1) <? byte_val (index c 0)); [discriminate|].
      destruct (serial_loop fuel spki cur m n (u32 (i + 1))
                  (slice_from (slice_from c 1) (byte_val (index c 0))))
        as [[t' r]|] eqn:E; [|discriminate].
      intros H. injection H as _ ->.
      apply IH in E.
      pose proof (length_slice_from_le (slice_from c 1) (byte_val (index c 0))).
      pose proof (length_slice_from_le c 1). lia.
    + intros H. injection H as _ <-. lia.
Qed.

Lemma dump_loop_fuel (f1 f2 : nat) spki c :
  (List.length c <= f1)%nat -> (List.length c <= f2)%nat ->
  dump_loop f1 spki c = dump_loop f2 spki c.
Proof.
  revert f2 c. induction f1 as [|f1 IH]; intros f2 c H1 H2.
  - destruct c; [|simpl in H1; lia]. destruct f2; reflexivity.
  - destruct f2 as [|f2].
    + destruct c; [|simpl in H2; lia]. reflexivity.
    + cbn [dump_loop].
      destruct (len c >? 0) eqn:E0; [|reflexivity].
      destruct (len c <? spkiHashLen) eqn:E1; [reflexivity|].
      destruct (len (slice_from c spkiHashLen) <? 4) eqn:E2; [reflexivity|].
      match goal with
      | |- context [serial_loop ?f ?a ?b ?d ?e ?g ?h] =>
          destruct (serial_loop f a b d e g h) as [[t [c'|b']]|] eqn:E
      end; try reflexivity.
      apply serial_loop_shrinks in E.
      assert (Hc : (List.length c' < List.length c)%nat).
      { apply Z.ltb_ge in E1. unfold spkiHashLen in *.
        pose proof (length_slice_from_le (slice_from c 32) 4).
        assert (List.length (slice_from c 32) = List.length c - 32)%nat.
        { unfold slice_from. rewrite length_skipn. reflexivity. }
        unfold len in E1. lia. }
      rewrite (IH f2) by lia. reflexivity.
Qed.

(** ** One turn of each loop *)

Lemma run_serials_done spki cur m n i c :
  n <= i -> run_serials spki cur m n i c = Some ([], Next c).
Proof.
  intros H. unfold run_serials. cbn [serial_loop].
  destruct (Z.ltb_spec i n); [lia|reflexivity].
Qed.

Lemma run_serials_no_length spki cur m n i :
  i < n ->
  run_serials spki cur m n i [] = Some ([Stderr (truncated_at SerialLength)], Return false).
Proof.
  intros H. unfold run_serials. cbn [serial_loop].
  destruct (Z.ltb_spec i n); [reflexivity|lia].
Qed.

Lemma run_serials_short spki cur m n i l c :
  i < n -> len c < byte_val l ->
  run_serials spki cur m n i (l :: c) = Some ([Stderr (truncated_at Serial)], Return false).
Proof.
  intros H Hc. unfold run_serials. cbn [serial_loop].
  destruct (Z.ltb_spec i n); [|lia].
  rewrite len_cons. destruct (Z.ltb_spec (1 + len c) 1); [pose proof (len_nonneg c); lia|].
  change (slice_from (l :: c) 1) with c. change (index (l :: c) 0) with l.
  destruct (Z.ltb_spec (len c) (byte_val l)); [reflexivity|lia].
Qed.

Lemma run_serials_step spki cur m n i l s rest :
  i < n -> byte_val l = len s ->
  run_serials spki cur m n i (l :: s ++ rest)
  = after (print_serial spki cur m s) (run_serials spki cur m n (u32 (i + 1)) rest).
Proof.
  intros H Hl. unfold run_serials. cbn [serial_loop].
  destruct (Z.ltb_spec i n); [|lia].
  rewrite len_cons. pose proof (len_nonneg (s ++ rest)).
  destruct (Z.ltb_spec (1 + len (s ++ rest)) 1); [lia|].
  change (slice_from (l :: s ++ rest) 1) with (s ++ rest).
  change (index (l :: s ++ rest) 0) with l.
  rewrite len_app, Hl. pose proof (len_nonneg rest).
  destruct (Z.ltb_spec (len s + len rest) (len s)); [lia|].
  rewrite slice_to_app, slice_from_app by reflexivity.
  rewrite (serial_loop_fuel _ (S (List.length rest))).
  - reflexivity.
  - simpl. rewrite length_app. lia.
  - lia.
Qed.

Lemma run_dump_nil spki : run_dump spki [] = Some ([], Next []).
Proof. reflexivity. Qed.

Lemma run_dump_no_hash spki c :
  0 < len c < 32 ->
  run_dump spki c = Some ([Stderr (truncated_at SPKIHash)], Return false).
Proof.
  intros H. unfold run_dump.
  destruct (List.length c) as [|f] eqn:E; [unfold len in H; lia|].
  cbn [dump_loop]. destruct (Z.gtb_spec (len c) 0); [|lia].
  unfold spkiHashLen. destruct (Z.ltb_spec (len c) 32); [reflexivity|lia].
Qed.

Lemma run_dump_no_count spki fp c :
  len fp = 32 -> len c < 4 ->
  run_dump spki (fp ++ c) = Some ([Stderr (truncated_at SerialCount)], Return false).
Proof.
  intros Hfp Hc. unfold run_dump. pose proof (len_nonneg c).
  destruct (List.length (fp ++ c)) as [|f] eqn:E.
  { rewrite length_app in E. unfold len in Hfp. lia. }
  cbn [dump_loop]. rewrite len_app, Hfp.
  destruct (Z.gtb_spec (32 + len c) 0); [|lia].
  unfold spkiHashLen. destruct (Z.ltb_spec (32 + len c) 32); [lia|].
  rewrite slice_from_app by (symmetry; exact Hfp).
  destruct (Z.ltb_spec (len c) 4); [reflexivity|lia].
Qed.

Lemma run_dump_step spki fp n rest :
  len fp = 32 -> 0 <= n < 2 ^ 32 ->
  run_dump spki (fp ++ le_bytes32 n ++ rest)
  = then_dump spki
      (run_serials spki (current_spki_of spki fp) (bytes_Equal spki fp) n 0 rest).
Proof.
  intros Hfp Hn. unfold run_dump. pose proof (len_nonneg rest).
  destruct (List.length (fp ++ le_bytes32 n ++ rest)) as [|f] eqn:E.
  { rewrite length_app in E. unfold len in Hfp. lia. }
  cbn [dump_loop]. rewrite len_app, Hfp, len_app.
  change (len (le_bytes32 n)) with 4.
  destruct (Z.gtb_spec (32 + (4 + len rest)) 0); [|lia].
  unfold spkiHashLen. destruct (Z.ltb_spec (32 + (4 + len rest)) 32); [lia|].
  rewrite slice_to_app, slice_from_app by (symmetry; exact Hfp).
  rewrite len_app. change (len (le_bytes32 n)) with 4.
  destruct (Z.ltb_spec (4 + len rest) 4); [lia|].
  rewrite slice_from_app by reflexivity.
  change (index (le_bytes32 n ++ rest) 0) with (byte_of_Z n).
  change (index (le_bytes32 n ++ rest) 1) with (byte_of_Z (n / 2 ^ 8)).
  change (index (le_bytes32 n ++ rest) 2) with (byte_of_Z (n / 2 ^ 16)).
  change (index (le_bytes32 n ++ rest) 3) with (byte_of_Z (n / 2 ^ 24)).
  rewrite uint32_of_bytes by apply byte_val_range.
  rewrite !byte_val_of_Z_mod, le_digits32 by exact Hn.
  fold (current_spki_of spki fp). fold (run_serials spki (current_spki_of spki fp)
    (bytes_Equal spki fp) n 0 rest).
  unfold then_dump.
  destruct (run_serials spki (current_spki_of spki fp) (bytes_Equal spki fp) n 0 rest)
    as [[t [c'|b]]|] eqn:Er; try reflexivity.
  unfold after, run_dump.
  apply serial_loop_shrinks in Er.
  rewrite (dump_loop_fuel f (List.length c')).
  - reflexivity.
  - rewrite !length_app in E. simpl in E. lia.
  - lia.
Qed.

(** ** Whole serials and whole blocks *)

Lemma after_after {A : Type} (t0 t1 : list event) (r : option (list event * A)) :
  after t0 (after t1 r) = after (t0 ++ t1) r.
Proof.
  destruct r as [[t x]|]; simpl; [rewrite app_assoc|]; reflexivity.
Qed.

Lemma after_nil {A : Type} (r : option (list event * A)) : after [] r = r.
Proof. destruct r as [[t x]|]; reflexivity. Qed.

Lemma then_dump_after spki t0 r :
  then_dump spki (after t0 r) = after t0 (then_dump spki r).
Proof.
  destruct r as [[t [c|b]]|]; simpl; try reflexivity.
  destruct (run_dump spki c) as [[t' x]|]; simpl; [rewrite app_assoc|]; reflexivity.
Qed.

Lemma run_serials_whole spki cur m n ss : forall i rest,
  Forall wf_serial ss -> 0 <= i -> i + len ss <= n -> n < 2 ^ 32 ->
  run_serials spki cur m n i (encode_serials ss ++ rest)
  = after (flat_map (print_serial spki cur m) ss)
          (run_serials spki cur m n (i + len ss) rest).
Proof.
  induction ss as [|s ss IH]; intros i rest Hwf Hi Hn Hmax.
  - rewrite len_nil, Z.add_0_r. simpl. rewrite after_nil. reflexivity.
  - inversion Hwf as [|? ? Hs Hss]; subst.
    rewrite len_cons in Hn. pose proof (len_nonneg ss). pose proof (len_nonneg s).
    unfold wf_serial in Hs.
    change (encode_serials (s :: ss) ++ rest)
      with ((byte_of_Z (len s) :: s ++ encode_serials ss) ++ rest).
    rewrite <- app_comm_cons, <- app_assoc.
    rewrite run_serials_step by (try rewrite byte_val_of_Z; lia).
    unfold u32. rewrite Z.mod_small by lia.
    rewrite IH by (assumption || lia).
    rewrite after_after. rewrite len_cons.
    replace (i + 1 + len ss) with (i + (1 + len ss)) by lia.
    reflexivity.
Qed.

Lemma run_dump_whole spki bs : forall tail,
  Forall wf_block bs ->
  run_dump spki (encode_body bs ++ tail) = after (body_events spki bs) (run_dump spki tail).
Proof.
  induction bs as [|b bs IH]; intros tail Hwf.
  - simpl. rewrite after_nil. reflexivity.
  - inversion Hwf as [|? ? Hb Hbs]; subst. destruct Hb as (Hfp & Hcount & Hss).
    pose proof (len_nonneg (serials b)).
    change (encode_body (b :: bs)) with (encode_block b ++ encode_body bs).
    unfold encode_block. rewrite <- !app_assoc.
    rewrite run_dump_step by (assumption || lia).
    rewrite run_serials_whole by (assumption || lia).
    rewrite run_serials_done by lia.
    cbn [after then_dump]. rewrite app_nil_r, IH by assumption.
    rewrite after_after. reflexivity.
Qed.

Lemma stdout_of_app (a b : list event) : stdout_of (a ++ b) = stdout_of a ++ stdout_of b.
Proof. apply flat_map_app. Qed.

Lemma stderr_of_app (a b : list event) : stderr_of (a ++ b) = stderr_of a ++ stderr_of b.
Proof. apply flat_map_app. Qed.

Lemma stdout_serial_events spki fp ss :
  stdout_of (serial_events spki fp ss) = serial_lines spki fp ss.
Proof.
  unfold serial_events, serial_lines, block_lines, print_serial, current_spki_of.
  cbn [fingerprint serials].
  induction ss as [|s ss IH]; simpl.
  - destruct (len spki =? 0); [reflexivity|]. destruct (bytes_Equal spki fp); reflexivity.
  - rewrite stdout_of_app, IH.
    destruct (len spki =? 0); [reflexivity|]. destruct (bytes_Equal spki fp); reflexivity.
Qed.

Lemma stderr_serial_events spki fp ss : stderr_of (serial_events spki fp ss) = [].
Proof.
  unfold serial_events, print_serial.
  induction ss as [|s ss IH]; simpl; [reflexivity|].
  rewrite stderr_of_app, IH.
  destruct (len spki =? 0); [reflexivity|].
  destruct (bytes_Equal spki fp); reflexivity.
Qed.

Lemma stdout_body_events spki bs :
  stdout_of (body_events spki bs) = flat_map (block_lines spki) bs.
Proof.
  induction bs as [|b bs IH]; [reflexivity|].
  unfold body_events in *. simpl. rewrite stdout_of_app, IH, stdout_serial_events.
  destruct b; reflexivity.
Qed.

Lemma stderr_body_events spki bs : stderr_of (body_events spki bs) = [].
Proof.
  induction bs as [|b bs IH]; [reflexivity|].
  unfold body_events in *. simpl. rewrite stderr_of_app, IH, stderr_serial_events.
  reflexivity.
Qed.

(** ** Blocks cut short *)

Lemma run_dump_cut spki st c fp ss :
  cut_block st c fp ss ->
  run_dump spki c
  = Some (serial_events spki fp ss ++ [Stderr (truncated_at st)], Return false).
Proof.
  intros H. destruct H as [c Hc|fp c Hfp Hc|fp n ss Hfp Hss Hn|fp n ss l c Hfp Hss Hn Hc].
  - apply run_dump_no_hash. exact Hc.
  - apply run_dump_no_count; assumption.
  - pose proof (len_nonneg ss).
    rewrite run_dump_step by (assumption || lia).
    rewrite <- (app_nil_r (encode_serials ss)).
    rewrite run_serials_whole by (assumption || lia).
    rewrite run_serials_no_length by lia. reflexivity.
  - pose proof (len_nonneg ss).
    rewrite run_dump_step by (assumption || lia).
    rewrite run_serials_whole by (assumption || lia).
    rewrite run_serials_short by (assumption || lia). reflexivity.
Qed.

Lemma dump_body_run spki c :
  dump_body spki c
  = match run_dump spki c with
    | Some (t, Next _) => Some (t, true)
    | Some (t, Return b) => Some (t, b)
    | None => None
    end.
Proof. reflexivity. Qed.

Lemma dump_body_whole spki bs :
  Forall wf_block bs ->
  dump_body spki (encode_body bs) = Some (body_events spki bs, true).
Proof.
  intros Hwf. rewrite dump_body_run.
  rewrite <- (app_nil_r (encode_body bs)), run_dump_whole by assumption.
  rewrite run_dump_nil. simpl. rewrite app_nil_r. reflexivity.
Qed.

Lemma dump_body_cut spki bs st c fp ss :
  Forall wf_block bs -> cut_block st c fp ss ->
  dump_body spki (encode_body bs ++ c)
  = Some (body_events spki bs ++ serial_events spki fp ss ++ [Stderr (truncated_at st)],
          false).
Proof.
  intros Hwf Hcut. rewrite dump_body_run, run_dump_whole by assumption.
  rewrite (run_dump_cut spki st c fp ss Hcut). reflexivity.
Qed.

(** ** The loops always come back *)

Lemma serial_loop_total (fuel : nat) spki cur m n : forall i c,
  (List.length c < fuel)%nat ->
  exists t r, serial_loop fuel spki cur m n i c = Some (t, r).
Proof.
  induction fuel as [|fuel IH]; intros i c Hf; [lia|].
  cbn [serial_loop].
  destruct (i <? n); [|eauto].
  destruct (len c <? 1) eqn:E1; [eauto|].
  destruct (len (slice_from c 1) <? byte_val (index c 0)); [eauto|].
  pose proof (length_slice_from_1 c E1) as Hlt.
  pose proof (length_slice_from_le (slice_from c 1) (byte_val (index c 0))) as Hle.
  destruct (IH (u32 (i + 1)) (slice_from (slice_from c 1) (byte_val (index c 0))))
    as (t & r & E); [lia|].
  rewrite E. eauto.
Qed.

Lemma dump_loop_total (fuel : nat) spki : forall c,
  (List.length c <= fuel)%nat ->
  exists t r, dump_loop fuel spki c = Some (t, r).
Proof.
  induction fuel as [|fuel IH]; intros c Hf.
  - destruct c; [|simpl in Hf; lia]. simpl. eauto.
  - cbn [dump_loop].
    destruct (len c >? 0); [|eauto].
    destruct (len c <? spkiHashLen) eqn:E1; [eauto|].
    destruct (len (slice_from c spkiHashLen) <? 4); [eauto|].
    match goal with
    | |- context [serial_loop ?f ?a ?b ?d ?e ?g ?h] =>
        destruct (serial_loop_total f a b d e g h) as (t & r & E); [lia|]
    end.
    rewrite E. destruct r as [c'|b]; [|eauto].
    apply serial_loop_shrinks in E.
    assert (Hc : (List.length c' <= fuel)%nat).
    { apply Z.ltb_ge in E1. unfold spkiHashLen in *.
      pose proof (length_slice_from_le (slice_from c 32) 4).
      assert (List.length (slice_from c 32) = List.length c - 32)%nat.
      { unfold slice_from. rewrite length_skipn. reflexivity. }
      unfold len in E1. lia. }
    destruct (IH c' Hc) as (t' & r' & E'). rewrite E'. eauto.
Qed.

Lemma dump_body_total spki c : exists t b, dump_body spki c = Some (t, b).
Proof.
  unfold dump_body.
  destruct (dump_loop_total (List.length c) spki c (Nat.le_refl _)) as (t & r & E).
  rewrite E. destruct r; eauto.
Qed.

(** ** A run to the end read whole blocks *)

Lemma le_bytes32_cover (c : list byte) :
  len c = 4 -> exists n, 0 <= n < 2 ^ 32 /\ c = le_bytes32 n.
Proof.
  destruct c as [|b0 [|b1 [|b2 [|b3 [|? ?]]]]]; unfold len; simpl; try lia. intros _.
  pose proof (byte_val_range b0). pose proof (byte_val_range b1).
  pose proof (byte_val_range b2). pose proof (byte_val_range b3).
  exists (byte_val b0 + 2 ^ 8 * byte_val b1 + 2 ^ 16 * byte_val b2 + 2 ^ 24 * byte_val b3).
  split; [lia|]. unfold le_bytes32.
  rewrite <- (byte_of_Z_val b0) at 1. rewrite <- (byte_of_Z_val b1) at 1.
  rewrite <- (byte_of_Z_val b2) at 1. rewrite <- (byte_of_Z_val b3) at 1.
  unfold byte_of_Z.
  repeat match goal with
         | |- ?x :: _ = ?y :: _ => replace y with x; [f_equal|]
         end; try reflexivity;
    match goal with
    | |- match Byte.of_N (Z.to_N ?a) with _ => _ end
         = match Byte.of_N (Z.to_N ?b) with _ => _ end => replace b with a; [reflexivity|]
    end;
    change (2 ^ 8) with 256 in *; change (2 ^ 16) with 65536 in *;
    change (2 ^ 24) with 16777216 in *;
    Z.to_euclidean_division_equations; lia.
Qed.

Lemma serial_loop_Next (fuel : nat) spki cur m n : forall i c t c',
  serial_loop fuel spki cur m n i c = Some (t, Next c') ->
  0 <= i <= n -> n < 2 ^ 32 ->
  exists ss, Forall wf_serial ss /\ c = encode_serials ss ++ c' /\ i + len ss = n
             /\ t = flat_map (print_serial spki cur m) ss.
Proof.
  induction fuel as [|fuel IH]; intros i c t c'; cbn [serial_loop].
  - destruct (Z.ltb_spec i n) as [Hin|Hin]; [discriminate|].
    intros H Hi Hn. injection H as <- <-. exists []. simpl. rewrite len_nil.
    repeat split; [constructor|lia].
  - destruct (Z.ltb_spec i n) as [Hin|Hin].
    + destruct (Z.ltb_spec (len c) 1) as [|H1]; [discriminate|].
      destruct (Z.ltb_spec (len (slice_from c 1)) (byte_val (index c 0))) as [|H2];
        [discriminate|].
      destruct (serial_loop fuel spki cur m n (u32 (i + 1))
                  (slice_from (slice_from c 1) (byte_val (index c 0))))
        as [[t' r]|] eqn:E; [|discriminate].
      intros H Hi Hn. injection H as <- ->.
      unfold u32 in E. rewrite Z.mod_small in E by lia.
      apply IH in E; [|lia|lia]. destruct E as (ss & Hss & Hc & Hlen & Ht).
      destruct c as [|l c1]; [rewrite len_nil in H1; lia|].
      change (slice_from (l :: c1) 1) with c1 in *.
      change (index (l :: c1) 0) with l in *.
      pose proof (byte_val_range l) as Hl.
      exists (slice_to c1 (byte_val l) :: ss).
      assert (Hs : len (slice_to c1 (byte_val l)) = byte_val l)
        by (apply len_slice_to; lia).
      repeat split.
      * constructor; [unfold wf_serial; lia|exact Hss].
      * change (encode_serials (slice_to c1 (byte_val l) :: ss))
          with (encode_serial (slice_to c1 (byte_val l)) ++ encode_serials ss).
        unfold encode_serial. rewrite Hs, byte_of_Z_val.
        rewrite <- !app_comm_cons, <- app_assoc.
        rewrite <- Hc, slice_to_from. reflexivity.
      * rewrite len_cons. lia.
      * simpl. rewrite Ht. reflexivity.
    + intros H Hi Hn. injection H as <- <-. exists []. simpl. rewrite len_nil.
      repeat split; [constructor|lia].
Qed.

Lemma run_dump_Next spki : forall c t c',
  run_dump spki c = Some (t, Next c') ->
  exists bs, Forall wf_block bs /\ c = encode_body bs /\ c' = [] /\ t = body_events spki bs.
Proof.
  intros c. remember (List.length c) as k eqn:Hk. revert c Hk.
  induction k as [k IH] using lt_wf_ind. intros c Hk t c' Hrun.
  destruct (Z.eq_dec (len c) 0) as [H0|H0].
  { destruct c; [|rewrite len_cons in H0; pose proof (len_nonneg c); lia].
    rewrite run_dump_nil in Hrun. injection Hrun as <- <-.
    exists []. repeat split. constructor. }
  pose proof (len_nonneg c) as Hc.
  destruct (Z_lt_le_dec (len c) 32) as [Hlt|Hge].
  { rewrite run_dump_no_hash in Hrun by lia. discriminate. }
  rewrite <- (slice_to_from c 32) in Hrun.
  assert (Hfp : len (slice_to c 32) = 32) by (apply len_slice_to; lia).
  assert (Hrest : len (slice_from c 32) = len c - 32) by (apply len_slice_from; lia).
  destruct (Z_lt_le_dec (len (slice_from c 32)) 4) as [Hlt|Hge4].
  { rewrite run_dump_no_count in Hrun by assumption. discriminate. }
  rewrite <- (slice_to_from (slice_from c 32) 4) in Hrun.
  assert (Hcnt : len (slice_to (slice_from c 32) 4) = 4) by (apply len_slice_to; lia).
  destruct (le_bytes32_cover _ Hcnt) as (n & Hn & En).
  rewrite En in Hrun. rewrite run_dump_step in Hrun by assumption.
  unfold then_dump in Hrun.
  destruct (run_serials spki (current_spki_of spki (slice_to c 32))
              (bytes_Equal spki (slice_to c 32)) n 0
              (slice_from (slice_from c 32) 4)) as [[t1 [c1|b]]|] eqn:Es;
    [|discriminate|discriminate].
  unfold run_serials in Es. pose proof (serial_loop_shrinks _ _ _ _ _ _ _ _ _ Es) as Hsh.
  apply serial_loop_Next in Es; [|lia|lia].
  destruct Es as (ss & Hss & Hcs & Hlen & Ht1).
  destruct (run_dump spki c1) as [[t2 r2]|] eqn:Ed; [|discriminate].
  simpl in Hrun. injection Hrun as <- ->.
  assert (Hlt : (List.length c1 < k)%nat).
  { pose proof (length_slice_from_le (slice_from c 32) 4). unfold len in Hrest. lia. }
  destruct (IH _ Hlt c1 eq_refl _ _ Ed) as (bs & Hbs & Hc1 & Hc' & Ht2).
  exists ({| fingerprint := slice_to c 32; serials := ss |} :: bs).
  repeat split.
  - constructor; [|exact Hbs]. repeat split; simpl; [exact Hfp|lia|exact Hss].
  - change (encode_body ({| fingerprint := slice_to c 32; serials := ss |} :: bs))
      with (encode_block {| fingerprint := slice_to c 32; serials := ss |} ++ encode_body bs).
    unfold encode_block. cbn [fingerprint serials]. rewrite <- !app_assoc.
    replace (len ss) with n by lia. rewrite <- En, <- Hc1, <- Hcs.
    rewrite !slice_to_from. reflexivity.
  - exact Hc'.
  - rewrite Ht1, Ht2. reflexivity.
Qed.

Lemma len_encode_serials (ss : list (list byte)) :
  len (encode_serials ss) = fold_right (fun s acc => 1 + len s + acc) 0 ss.
Proof.
  induction ss as [|s ss IH]; [reflexivity|].
  change (encode_serials (s :: ss)) with (encode_serial s ++ encode_serials ss).
  cbn [fold_right]. unfold encode_serial. rewrite len_app, len_cons, IH. lia.
Qed.

Lemma len_encode_body (bs : list block) :
  Forall wf_block bs -> len (encode_body bs) = body_size bs.
Proof.
  induction 1 as [|b bs (Hfp & _ & _) _ IH]; [reflexivity|].
  change (encode_body (b :: bs)) with (encode_block b ++ encode_body bs).
  cbn [body_size fold_right]. fold (body_size bs). rewrite len_app, IH.
  unfold encode_block, block_size. rewrite !len_app, Hfp, len_encode_serials.
  change (len (le_bytes32 (len (serials b)))) with 4. lia.
Qed.

(** ** The filtered dump *)

Lemma filtered_lines spki bs :
  len spki <> 0 -> flat_map (block_lines spki) bs = matching_lines spki bs.
Proof.
  intros Hs. unfold matching_lines.
  induction bs as [|b bs IH]; [reflexivity|].
  cbn [flat_map filter]. rewrite IH. unfold block_lines at 1.
  destruct (Z.eqb_spec (len spki) 0); [contradiction|].
  destruct (bytes_Equal spki (fingerprint b)); reflexivity.
Qed.

Lemma dump_body_filtered spki bs :
  Forall wf_block bs -> len spki <> 0 ->
  exists t, dump_body spki (encode_body bs) = Some (t, true)
            /\ stdout_of t = matching_lines spki bs /\ stderr_of t = [].
Proof.
  intros Hwf Hs. exists (body_events spki bs). split; [|split].
  - apply dump_body_whole. exact Hwf.
  - rewrite stdout_body_events. apply filtered_lines. exact Hs.
  - apply stderr_body_events.
Qed.

Lemma matching_lines_app spki a b :
  matching_lines spki (a ++ b) = matching_lines spki a ++ matching_lines spki b.
Proof.
  unfold matching_lines. rewrite filter_app, map_app, concat_app. reflexivity.
Qed.

Lemma matching_lines_none spki bs :
  (forall b, In b bs -> fingerprint b <> spki) -> matching_lines spki bs = [].
Proof.
  intros H. unfold matching_lines.
  induction bs as [|b bs IH]; [reflexivity|].
  cbn [filter]. destruct (bytes_Equal spki (fingerprint b)) eqn:E.
  - apply bytes_Equal_spec in E. exfalso. apply (H b); [left; reflexivity|congruence].
  - apply IH. intros b' Hb'. apply H. right. exact Hb'.
Qed.

(** C10: a filtered dump of whole blocks goes through every block and prints
    the serials of each block whose fingerprint is the 32-byte filter, so its
    output is the concatenation, in block order, of the serial lists of all
    the matching blocks; it does not stop at the first match. *)
Theorem dump_filtered_prints_every_match (spki : list byte) (bs : list block) :
  Forall wf_block bs -> len spki = 32 ->
  exists t, dump_body spki (encode_body bs) = Some (t, true)
            /\ stdout_of t
               = List.concat (map (fun b => map fmt_serial (serials b))
                             (filter (fun b => bytes_Equal spki (fingerprint b)) bs))
            /\ stderr_of t = [].
Proof.
  intros Hwf Hs. apply dump_body_filtered; [exact Hwf|lia].
Qed.

Lemma body_dup_wf : Forall wf_block body_dup.
Proof.
  repeat constructor; unfold wf_serial; cbn; lia.
Qed.

Lemma dump_filtered_prints_every_match_witness :
  exists t, dump_body fp00 (encode_body body_dup) = Some (t, true)
            /\ stdout_of t = map fmt_serial [[xab]; [xcd]; [xef]]
            /\ stderr_of t = [].
Proof.
  exact (dump_filtered_prints_every_match fp00 body_dup body_dup_wf eq_refl).
Defined.

Lemma body_ex_wf : Forall wf_block [block_ex].
Proof.
  repeat constructor; unfold wf_serial; cbn; lia.
Qed.

(** C1, as the program has it: when exactly one block of a well-formed body
    carries the 32-byte filter, the filtered dump prints the serials of that
    block, in their order, and nothing else; when no block carries it, the
    dump prints nothing and succeeds. *)
Theorem dump_filtered_unique_block (spki : list byte) (bs : list block) :
  Forall wf_block bs -> len spki = 32 ->
  (forall pre b post,
      bs = pre ++ b :: post -> fingerprint b = spki ->
      (forall b', In b' (pre ++ post) -> fingerprint b' <> spki) ->
      exists t, dump_body spki (encode_body bs) = Some (t, true)
                /\ stdout_of t = map fmt_serial (serials b) /\ stderr_of t = [])
  /\ ((forall b, In b bs -> fingerprint b <> spki) ->
      exists t, dump_body spki (encode_body bs) = Some (t, true)
                /\ stdout_of t = [] /\ stderr_of t = []).
Proof.
  intros Hwf Hs.
  destruct (dump_body_filtered spki bs Hwf ltac:(lia)) as (t & Hrun & Hout & Herr).
  split.
  - intros pre b post -> Hb Hothers. exists t. repeat split; try assumption.
    rewrite Hout, matching_lines_app.
    change (b :: post) with ([b] ++ post). rewrite matching_lines_app.
    rewrite (matching_lines_none spki pre), (matching_lines_none spki post).
    + unfold matching_lines. cbn [filter]. rewrite Hb, bytes_Equal_refl.
      simpl. rewrite !app_nil_r. reflexivity.
    + intros b' Hb'. apply Hothers. apply in_or_app. right. exact Hb'.
    + intros b' Hb'. apply Hothers. apply in_or_app. left. exact Hb'.
  - intros Hnone. exists t. repeat split; try assumption.
    rewrite Hout. apply matching_lines_none. exact Hnone.
Qed.

Lemma dump_filtered_unique_block_witness :
  (exists t, dump_body fp00 (encode_body [block_ex]) = Some (t, true)
             /\ stdout_of t = map fmt_serial [[xab]; [x01; x02]] /\ stderr_of t = [])
  /\ (exists t, dump_body fpff (encode_body [block_ex]) = Some (t, true)
                /\ stdout_of t = [] /\ stderr_of t = []).
Proof.
  split.
  - apply (proj1 (dump_filtered_unique_block fp00 [block_ex] body_ex_wf eq_refl)
             [] block_ex [] eq_refl eq_refl).
    intros b' [].
  - apply (proj2 (dump_filtered_unique_block fpff [block_ex] body_ex_wf eq_refl)).
    intros b [<-|[]]. discriminate.
Defined.

(** C1 fails as stated: two blocks of a well-formed body carry the
    fingerprint [00 x 32]; the dump filtered by it prints the serials of
    both, which is the serial list of neither. *)
Lemma dump_filtered_one_block_counterexample :
  Forall wf_block body_dup /\ len fp00 = 32
  /\ In block_dup1 body_dup /\ fingerprint block_dup1 = fp00
  /\ In block_dup2 body_dup /\ fingerprint block_dup2 = fp00
  /\ dump_body fp00 (encode_body body_dup)
     = Some (map Stdout (map fmt_serial [[xab]; [xcd]; [xef]]), true)
  /\ map fmt_serial [[xab]; [xcd]; [xef]] <> map fmt_serial (serials block_dup1)
  /\ map fmt_serial [[xab]; [xcd]; [xef]] <> map fmt_serial (serials block_dup2).
Proof.
  split; [exact body_dup_wf|].
  split; [reflexivity|].
  split; [left; reflexivity|].
  split; [reflexivity|].
  split; [right; left; reflexivity|].
  split; [reflexivity|].
  split; [vm_compute; reflexivity|].
  split; discriminate.
Qed.

(** ** A run that returns early stopped at a block cut short *)

Lemma serial_loop_Return (fuel : nat) spki cur m n : forall i c t b,
  serial_loop fuel spki cur m n i c = Some (t, Return b) ->
  0 <= i <= n -> n < 2 ^ 32 ->
  exists ss, Forall wf_serial ss /\ i + len ss < n /\ b = false
    /\ ((c = encode_serials ss
         /\ t = flat_map (print_serial spki cur m) ss ++ [Stderr (truncated_at SerialLength)])
        \/ (exists l c2, c = encode_serials ss ++ l :: c2 /\ len c2 < byte_val l
            /\ t = flat_map (print_serial spki cur m) ss ++ [Stderr (truncated_at Serial)])).
Proof.
  induction fuel as [|fuel IH]; intros i c t b; cbn [serial_loop].
  - destruct (i <? n); discriminate.
  - destruct (Z.ltb_spec i n) as [Hin|Hin]; [|discriminate].
    destruct (Z.ltb_spec (len c) 1) as [H1|H1].
    { intros H Hi Hn. injection H as <- <-. exists []. rewrite len_nil.
      repeat split; [constructor|lia|]. left. split; [|reflexivity].
      destruct c; [reflexivity|rewrite len_cons in H1; pose proof (len_nonneg c); lia]. }
    destruct c as [|l c1]; [rewrite len_nil in H1; lia|].
    change (slice_from (l :: c1) 1) with c1. change (index (l :: c1) 0) with l.
    destruct (Z.ltb_spec (len c1) (byte_val l)) as [H2|H2].
    { intros H Hi Hn. injection H as <- <-. exists []. rewrite len_nil.
      repeat split; [constructor|lia|]. right. exists l, c1. repeat split. exact H2. }
    destruct (serial_loop fuel spki cur m n (u32 (i + 1)) (slice_from c1 (byte_val l)))
      as [[t' r]|] eqn:E; [|discriminate].
    intros H Hi Hn. injection H as <- ->.
    unfold u32 in E. rewrite Z.mod_small in E by lia.
    apply IH in E; [|lia|lia]. destruct E as (ss & Hss & Hlen & Hb & Hcase).
    pose proof (byte_val_range l) as Hl.
    assert (Hs : len (slice_to c1 (byte_val l)) = byte_val l)
      by (apply len_slice_to; lia).
    assert (Henc : forall tail, slice_from c1 (byte_val l) = encode_serials ss ++ tail ->
              l :: c1 = encode_serials (slice_to c1 (byte_val l) :: ss) ++ tail).
    { intros tail Htail.
      change (encode_serials (slice_to c1 (byte_val l) :: ss))
        with (encode_serial (slice_to c1 (byte_val l)) ++ encode_serials ss).
      unfold encode_serial. rewrite Hs, byte_of_Z_val.
      rewrite <- !app_comm_cons, <- app_assoc.
      rewrite <- Htail, slice_to_from. reflexivity. }
    exists (slice_to c1 (byte_val l) :: ss). repeat split.
    + constructor; [unfold wf_serial; lia|exact Hss].
    + rewrite len_cons. lia.
    + exact Hb.
    + destruct Hcase as [(Hc & Ht)|(l2 & c2 & Hc & Hshort & Ht)].
      * left. split.
        -- rewrite <- (app_nil_r (encode_serials _)). apply Henc.
           rewrite app_nil_r. exact Hc.
        -- rewrite Ht. cbn [flat_map]. rewrite app_assoc. reflexivity.
      * right. exists l2, c2. repeat split.
        -- apply Henc. exact Hc.
        -- exact Hshort.
        -- rewrite Ht. cbn [flat_map]. rewrite app_assoc. reflexivity.
Qed.

Lemma run_dump_Return spki : forall c t b,
  run_dump spki c = Some (t, Return b) ->
  exists bs st tail fp ss,
    Forall wf_block bs /\ cut_block st tail fp ss /\ c = encode_body bs ++ tail
    /\ b = false
    /\ t = body_events spki bs ++ serial_events spki fp ss ++ [Stderr (truncated_at st)].
Proof.
  intros c. remember (List.length c) as k eqn:Hk. revert c Hk.
  induction k as [k IH] using lt_wf_ind. intros c Hk t b Hrun.
  destruct (Z.eq_dec (len c) 0) as [H0|H0].
  { destruct c; [|rewrite len_cons in H0; pose proof (len_nonneg c); lia].
    rewrite run_dump_nil in Hrun. discriminate. }
  pose proof (len_nonneg c) as Hc.
  destruct (Z_lt_le_dec (len c) 32) as [Hlt|Hge].
  { rewrite run_dump_no_hash in Hrun by lia. injection Hrun as <- <-.
    exists [], SPKIHash, c, c, []. repeat split; [constructor|constructor; lia]. }
  assert (Hfp : len (slice_to c 32) = 32) by (apply len_slice_to; lia).
  assert (Hrest : len (slice_from c 32) = len c - 32) by (apply len_slice_from; lia).
  destruct (Z_lt_le_dec (len (slice_from c 32)) 4) as [Hlt|Hge4].
  { rewrite <- (slice_to_from c 32) in Hrun.
    rewrite run_dump_no_count in Hrun by assumption. injection Hrun as <- <-.
    exists [], SerialCount, c, (slice_to c 32), []. repeat split; [constructor|].
    rewrite <- (slice_to_from c 32) at 1. constructor; assumption. }
  assert (Hcnt : len (slice_to (slice_from c 32) 4) = 4) by (apply len_slice_to; lia).
  destruct (le_bytes32_cover _ Hcnt) as (n & Hn & En).
  assert (Hsplit : c = slice_to c 32 ++ le_bytes32 n ++ slice_from (slice_from c 32) 4).
  { rewrite <- En, !slice_to_from. reflexivity. }
  rewrite Hsplit in Hrun. rewrite run_dump_step in Hrun by assumption.
  unfold then_dump in Hrun.
  destruct (run_serials spki (current_spki_of spki (slice_to c 32))
              (bytes_Equal spki (slice_to c 32)) n 0
              (slice_from (slice_from c 32) 4)) as [[t1 [c1|b1]]|] eqn:Es;
    [| |discriminate].
  - unfold run_serials in Es.
    pose proof (serial_loop_shrinks _ _ _ _ _ _ _ _ _ Es) as Hsh.
    apply serial_loop_Next in Es; [|lia|lia].
    destruct Es as (ss & Hss & Hcs & Hlen & Ht1).
    destruct (run_dump spki c1) as [[t2 r2]|] eqn:Ed; [|discriminate].
    simpl in Hrun. injection Hrun as <- ->.
    assert (Hlt : (List.length c1 < k)%nat).
    { pose proof (length_slice_from_le (slice_from c 32) 4). unfold len in Hrest. lia. }
    destruct (IH _ Hlt c1 eq_refl _ _ Ed) as (bs & st & tail & fp & ss' & Hbs & Hcut & Hc1 & Hb & Ht2).
    exists ({| fingerprint := slice_to c 32; serials := ss |} :: bs), st, tail, fp, ss'.
    repeat split.
    + constructor; [|exact Hbs]. repeat split; simpl; [exact Hfp|lia|exact Hss].
    + exact Hcut.
    + change (encode_body ({| fingerprint := slice_to c 32; serials := ss |} :: bs))
        with (encode_block {| fingerprint := slice_to c 32; serials := ss |}
              ++ encode_body bs).
      unfold encode_block. cbn [fingerprint serials]. rewrite <- !app_assoc.
      replace (len ss) with n by lia. rewrite <- Hc1, <- Hcs. exact Hsplit.
    + exact Hb.
    + rewrite Ht1, Ht2. cbn [body_events flat_map fingerprint serials].
      unfold serial_events at 2. rewrite <- app_assoc. reflexivity.
  - injection Hrun as <- <-. unfold run_serials in Es.
    apply serial_loop_Return in Es; [|lia|lia].
    destruct Es as (ss & Hss & Hlen & Hb & Hcase).
    destruct Hcase as [(Hcs & Ht)|(l & c2 & Hcs & Hshort & Ht)].
    + exists [], SerialLength, c, (slice_to c 32), ss. repeat split.
      * constructor.
      * rewrite Hsplit at 1. rewrite Hcs. constructor; (assumption || lia).
      * exact Hb.
      * exact Ht.
    + exists [], Serial, c, (slice_to c 32), ss. repeat split.
      * constructor.
      * rewrite Hsplit at 1. rewrite Hcs. constructor; (assumption || lia).
      * exact Hb.
      * exact Ht.
Qed.

(** A body is a sequence of whole blocks, or whole blocks and one block cut
    short. *)
Lemma body_whole_or_cut (c : list byte) :
  (exists bs, Forall wf_block bs /\ c = encode_body bs)
  \/ (exists bs st tail fp ss,
         Forall wf_block bs /\ cut_block st tail fp ss /\ c = encode_body bs ++ tail).
Proof.
  destruct (dump_loop_total (List.length c) [] c (Nat.le_refl _)) as (t & r & E).
  fold (run_dump [] c) in E. destruct r as [c'|b].
  - left. apply run_dump_Next in E. destruct E as (bs & Hbs & Hc & _). eauto.
  - right. apply run_dump_Return in E.
    destruct E as (bs & st & tail & fp & ss & Hbs & Hcut & Hc & _).
    exists bs, st, tail, fp, ss. auto.
Qed.

(** C3: a body that ends inside a block makes the dump return [false] with
    one diagnostic, [CRLSet truncated at] followed by the stage at which the
    bytes ran out ([cut_block]): fewer than 32 bytes at the start of a block
    is [SPKI hash], fewer than 4 bytes of count is [serial count], no length
    byte for a serial the count announces is [serial length], and fewer bytes
    than a length byte announces is [serial].  The serials read before are
    printed.  A count of 3 over two serials stops at [serial length].  Every
    dump returns: [true] when the body is whole blocks up to its last byte,
    and [false] with one of the four diagnostics otherwise. *)
Theorem dump_truncated_names_stage (spki : list byte) :
  (forall bs st tail fp ss,
      Forall wf_block bs -> cut_block st tail fp ss ->
      dump_body spki (encode_body bs ++ tail)
      = Some (body_events spki bs ++ serial_events spki fp ss
                ++ [Stderr ("CRLSet truncated at " ++ stage_name st ++ nl)%string], false)
      /\ stderr_of (body_events spki bs ++ serial_events spki fp ss
                      ++ [Stderr ("CRLSet truncated at " ++ stage_name st ++ nl)%string])
         = [("CRLSet truncated at " ++ stage_name st ++ nl)%string])
  /\ (exists t, dump_body spki body_count3 = Some (t, false)
                /\ stderr_of t = [("CRLSet truncated at serial length" ++ nl)%string])
  /\ (forall c, exists t b,
         dump_body spki c = Some (t, b)
         /\ ((b = true /\ exists bs, Forall wf_block bs /\ c = encode_body bs)
             \/ (b = false
                 /\ exists st,
                      stderr_of t = [("CRLSet truncated at " ++ stage_name st ++ nl)%string]))).
Proof.
  assert (Hcut : forall bs st tail fp ss,
      Forall wf_block bs -> cut_block st tail fp ss ->
      dump_body spki (encode_body bs ++ tail)
      = Some (body_events spki bs ++ serial_events spki fp ss
                ++ [Stderr ("CRLSet truncated at " ++ stage_name st ++ nl)%string], false)
      /\ stderr_of (body_events spki bs ++ serial_events spki fp ss
                      ++ [Stderr ("CRLSet truncated at " ++ stage_name st ++ nl)%string])
         = [("CRLSet truncated at " ++ stage_name st ++ nl)%string]).
  { intros bs st tail fp ss Hwf Hc. split.
    - apply dump_body_cut; assumption.
    - rewrite !stderr_of_app, stderr_body_events, stderr_serial_events. reflexivity. }
  split; [exact Hcut|]. split.
  - assert (Hc : cut_block SerialLength body_count3 fp00 [[xab]; [x01; x02]]).
    { apply (cut_length fp00 3 [[xab]; [x01; x02]]).
      - reflexivity.
      - repeat constructor; unfold wf_serial; cbn; lia.
      - cbn. lia. }
    destruct (Hcut [] _ _ _ _ (Forall_nil _) Hc) as [Hrun Herr].
    eexists. split; [exact Hrun|exact Herr].
  - intros c. rewrite dump_body_run.
    destruct (dump_loop_total (List.length c) spki c (Nat.le_refl _)) as (t & r & E).
    fold (run_dump spki c) in E. rewrite E. destruct r as [c'|b].
    + exists t, true. split; [reflexivity|]. left. split; [reflexivity|].
      apply run_dump_Next in E. destruct E as (bs & Hbs & Hc & _). eauto.
    + apply run_dump_Return in E.
      destruct E as (bs & st & tail & fp & ss & Hbs & Hc & _ & -> & ->).
      eexists _, false. split; [reflexivity|]. right. split; [reflexivity|].
      exists st. apply (Hcut bs st tail fp ss Hbs Hc).
Qed.

Lemma cut_count3 : cut_block SerialLength body_count3 fp00 [[xab]; [x01; x02]].
Proof.
  apply (cut_length fp00 3 [[xab]; [x01; x02]]).
  - reflexivity.
  - repeat constructor; unfold wf_serial; cbn; lia.
  - cbn. lia.
Qed.

Lemma dump_truncated_names_stage_witness :
  dump_body [] (encode_body [block_ex] ++ body_count3)
  = Some (map Stdout
            [fmt_record fp00 [xab]; fmt_record fp00 [x01; x02];
             fmt_record fp00 [xab]; fmt_record fp00 [x01; x02]]
          ++ [Stderr ("CRLSet truncated at serial length" ++ nl)%string], false).
Proof.
  exact (proj1 (proj1 (dump_truncated_names_stage [])
                  [block_ex] SerialLength body_count3 fp00 [[xab]; [x01; x02]]
                  body_ex_wf cut_count3)).
Defined.

(** ** Files *)

Lemma le_bytes16_of_bytes (b0 b1 : byte) :
  [b0; b1] = le_bytes16 (byte_val b0 + 2 ^ 8 * byte_val b1).
Proof.
  pose proof (byte_val_range b0). pose proof (byte_val_range b1).
  unfold le_bytes16. f_equal; [|f_equal].
  - rewrite <- (byte_of_Z_val b0) at 1. unfold byte_of_Z.
    replace ((byte_val b0 + 2 ^ 8 * byte_val b1) mod 256) with (byte_val b0 mod 256);
      [reflexivity|].
    change (2 ^ 8) with 256. Z.to_euclidean_division_equations. lia.
  - rewrite <- (byte_of_Z_val b1) at 1. unfold byte_of_Z.
    replace (((byte_val b0 + 2 ^ 8 * byte_val b1) / 2 ^ 8) mod 256)
      with (byte_val b1 mod 256); [reflexivity|].
    change (2 ^ 8) with 256. Z.to_euclidean_division_equations. lia.
Qed.

Section FilesFacts.

Variable ReadFile : string -> result (list byte).
Variable json_Unmarshal : list byte -> crlSetHeader -> crlSetHeader * option string.
Variable pem_Decode : list byte -> option (list byte).
Variable x509_ParseCertificate : list byte -> result (list byte).
Variable sha256_Sum : list byte -> list byte.
Variable base64_DecodeString : string -> result (list byte).

Local Abbreviation getHeader' := (getHeader ReadFile json_Unmarshal).
Local Abbreviation dump' :=
  (dump ReadFile json_Unmarshal pem_Decode x509_ParseCertificate sha256_Sum).
Local Abbreviation dumpSPKIs' := (dumpSPKIs ReadFile json_Unmarshal base64_DecodeString).
Local Abbreviation parsed_header' := (parsed_header json_Unmarshal).

Lemma getHeader_short filename c :
  ReadFile filename = Ok c -> len c < 2 ->
  getHeader' filename
  = ([Stderr ("CRLSet truncated at header length" ++ nl)%string], (zero_header, [], false)).
Proof.
  intros Hr Hc. unfold getHeader. rewrite Hr.
  destruct (Z.ltb_spec (len c) 2); [reflexivity|lia].
Qed.

Lemma getHeader_bytes filename b0 b1 rest :
  ReadFile filename = Ok (b0 :: b1 :: rest) ->
  getHeader' filename
  = if len rest <? byte_val b0 + 2 ^ 8 * byte_val b1 then
      ([Stderr ("CRLSet truncated at header" ++ nl)%string], (zero_header, [], false))
    else
      parsed_header' (slice_to rest (byte_val b0 + 2 ^ 8 * byte_val b1))
                    (slice_from rest (byte_val b0 + 2 ^ 8 * byte_val b1)).
Proof.
  intros Hr. unfold getHeader. rewrite Hr.
  rewrite !len_cons. pose proof (len_nonneg rest).
  destruct (Z.ltb_spec (1 + (1 + len rest)) 2); [lia|].
  change (index (b0 :: b1 :: rest) 0) with b0.
  change (index (b0 :: b1 :: rest) 1) with b1.
  change (slice_from (b0 :: b1 :: rest) 2) with rest.
  rewrite uint16_of_bytes by apply byte_val_range.
  reflexivity.
Qed.

Lemma getHeader_file filename headerBytes body :
  ReadFile filename = Ok (encode_file headerBytes body) -> len headerBytes < 2 ^ 16 ->
  getHeader' filename = parsed_header' headerBytes (encode_body body).
Proof.
  intros Hr Hlen. pose proof (len_nonneg headerBytes).
  unfold encode_file, le_bytes16 in Hr.
  rewrite (getHeader_bytes _ _ _ _ Hr).
  rewrite !byte_val_of_Z_mod, le_digits16 by lia.
  rewrite len_app. pose proof (len_nonneg (encode_body body)).
  destruct (Z.ltb_spec (len headerBytes + len (encode_body body)) (len headerBytes)); [lia|].
  rewrite slice_to_app, slice_from_app by reflexivity. reflexivity.
Qed.

Lemma getHeader_ok_inv filename t0 h c :
  getHeader' filename = (t0, (h, c, true)) ->
  exists headerBytes,
    ReadFile filename = Ok (le_bytes16 (len headerBytes) ++ headerBytes ++ c)
    /\ len headerBytes < 2 ^ 16
    /\ json_Unmarshal headerBytes zero_header = (h, None) /\ t0 = [].
Proof.
  unfold getHeader. destruct (ReadFile filename) as [c0|e] eqn:Hr; [|discriminate].
  destruct (Z.ltb_spec (len c0) 2) as [|H2]; [discriminate|].
  destruct c0 as [|b0 [|b1 rest]];
    [rewrite len_nil in H2; lia|rewrite len_cons, len_nil in H2; lia|].
  change (index (b0 :: b1 :: rest) 0) with b0.
  change (index (b0 :: b1 :: rest) 1) with b1.
  change (slice_from (b0 :: b1 :: rest) 2) with rest.
  rewrite uint16_of_bytes by apply byte_val_range.
  pose proof (byte_val_range b0). pose proof (byte_val_range b1).
  set (n := byte_val b0 + 2 ^ 8 * byte_val b1).
  destruct (Z.ltb_spec (len rest) n) as [|Hn]; [discriminate|].
  destruct (json_Unmarshal (slice_to rest n) zero_header) as [h' [err|]] eqn:Ej;
    [discriminate|].
  intros Hget. injection Hget as <- <- <-.
  exists (slice_to rest n).
  assert (Hl : len (slice_to rest n) = n) by (apply len_slice_to; subst n; lia).
  repeat split.
  - rewrite Hl, slice_to_from. subst n. rewrite <- le_bytes16_of_bytes. reflexivity.
  - rewrite Hl. subst n. lia.
  - exact Ej.
Qed.

(** [dump] once the header and the filter are there. *)
Lemma dump_body_of_file filename certificateFilename t0 h c t1 spki :
  getHeader' filename = (t0, (h, c, true)) ->
  certificate_spki ReadFile pem_Decode x509_ParseCertificate sha256_Sum certificateFilename
  = (t1, Some spki) ->
  dump' filename certificateFilename = after (t0 ++ t1) (dump_body spki c).
Proof.
  intros Hh Hc. unfold dump. rewrite Hh, Hc. cbn [negb].
  destruct (dump_body spki c) as [[t2 b]|]; simpl; [rewrite app_assoc|]; reflexivity.
Qed.

(** [dump] returns on every file. *)
Lemma dump_total filename certificateFilename :
  exists t b, dump' filename certificateFilename = Some (t, b).
Proof.
  unfold dump. destruct (getHeader' filename) as [t0 [[h c] ok]].
  destruct ok; cbn [negb]; [|eauto].
  destruct (certificate_spki _ _ _ _ _) as [t1 [spki|]]; [|eauto].
  destruct (dump_body_total spki c) as (t2 & b & E). rewrite E. eauto.
Qed.

(** C4: [getHeader] reads the first two bytes of the file as an unsigned
    16-bit little-endian length, and takes that many of the bytes after them
    as the header; a file shorter than two bytes is reported as truncated at
    the header length, and a remainder shorter than the length as truncated
    at the header. *)
Theorem getHeader_reads_u16_length (filename : string) (c : list byte) :
  ReadFile filename = Ok c ->
  (len c < 2 ->
   getHeader' filename
   = ([Stderr ("CRLSet truncated at header length" ++ nl)%string], (zero_header, [], false)))
  /\ (forall b0 b1 rest,
         c = b0 :: b1 :: rest ->
         let headerLen := byte_val b0 + 2 ^ 8 * byte_val b1 in
         (len rest < headerLen ->
          getHeader' filename
          = ([Stderr ("CRLSet truncated at header" ++ nl)%string], (zero_header, [], false)))
         /\ (headerLen <= len rest ->
             exists headerBytes body,
               rest = headerBytes ++ body /\ len headerBytes = headerLen
               /\ getHeader' filename
                  = match json_Unmarshal headerBytes zero_header with
                    | (header, Some err) =>
                        ([Stderr ("Failed to parse header: " ++ err)%string],
                         (header, [], false))
                    | (header, None) => ([], (header, body, true))
                    end)).
Proof.
  intros Hr. split.
  - intros Hc. apply getHeader_short with (c := c); assumption.
  - intros b0 b1 rest -> headerLen.
    rewrite (getHeader_bytes _ _ _ _ Hr). fold headerLen.
    pose proof (byte_val_range b0). pose proof (byte_val_range b1).
    split; intros Hlen.
    + destruct (Z.ltb_spec (len rest) headerLen); [reflexivity|lia].
    + destruct (Z.ltb_spec (len rest) headerLen); [lia|].
      exists (slice_to rest headerLen), (slice_from rest headerLen).
      split; [symmetry; apply slice_to_from|].
      split; [apply len_slice_to; subst headerLen; lia|reflexivity].
Qed.

(** C5: when the header of a file was decoded and the dump of the body
    returns [true], the body is a sequence of whole blocks, the sizes of the
    blocks, each 32 + 4 + the sum over its serials of 1 + the length of the
    serial, add up to the length of the body, and the loop ends with nothing
    left of the cursor. *)
Theorem dump_consumes_whole_body (filename : string) (spki : list byte)
    (t0 : list event) (h : crlSetHeader) (c : list byte) (t : list event) :
  getHeader' filename = (t0, (h, c, true)) ->
  dump_body spki c = Some (t, true) ->
  exists headerBytes bs,
    ReadFile filename = Ok (encode_file headerBytes bs)
    /\ Forall wf_block bs /\ c = encode_body bs
    /\ body_size bs = len c
    /\ dump_loop (List.length c) spki c = Some (t, Next []).
Proof.
  intros Hh Hrun. apply getHeader_ok_inv in Hh.
  destruct Hh as (hb & Hr & _ & _ & _).
  rewrite dump_body_run in Hrun. unfold run_dump in Hrun.
  destruct (dump_loop (List.length c) spki c) as [[t' [c'|b]]|] eqn:E; try discriminate.
  - injection Hrun as ->. pose proof E as E'. apply run_dump_Next in E'.
    destruct E' as (bs & Hbs & Hc & Hc' & _). subst c'.
    exists hb, bs. repeat split; try assumption.
    + unfold encode_file. rewrite <- Hc. exact Hr.
    + rewrite Hc. symmetry. apply len_encode_body. exact Hbs.
  - injection Hrun as _ ->. apply run_dump_Return in E.
    destruct E as (_ & _ & _ & _ & _ & _ & _ & _ & Hb & _). discriminate.
Qed.


(** *** [dumpSPKIs] *)

Lemma dump_spki_list_app (a b : list string) :
  dump_spki_list base64_DecodeString (a ++ b)
  = dump_spki_list base64_DecodeString a ++ dump_spki_list base64_DecodeString b.
Proof.
  induction a as [|s a IH]; [reflexivity|].
  cbn [app dump_spki_list]. rewrite IH.
  destruct (base64_DecodeString s); reflexivity.
Qed.

Lemma dump_fields_header (header : crlSetHeader) :
  dump_fields base64_DecodeString (fields header)
  = dump_spki_list base64_DecodeString (all_spkis header).
Proof.
  unfold all_spkis. rewrite !dump_spki_list_app.
  unfold fields. cbn [dump_fields type_of go_type_eqb negb].
  change (HasSuffix "Sequence" "SPKIs") with false.
  change (HasSuffix "NumParents" "SPKIs") with false.
  change (HasSuffix "BlockedSPKIs" "SPKIs") with true.
  change (HasSuffix "KnownInterceptionSPKIs" "SPKIs") with true.
  change (HasSuffix "BlockedInterceptionSPKIs" "SPKIs") with true.
  cbn [negb]. rewrite app_nil_r. reflexivity.
Qed.

Lemma stdout_dump_spki_list (l : list string) :
  stdout_of (dump_spki_list base64_DecodeString l)
  = map spki_line (valid_digests base64_DecodeString l).
Proof.
  induction l as [|s l IH]; [reflexivity|].
  cbn [dump_spki_list valid_digests flat_map].
  destruct (base64_DecodeString s) as [d|e].
  - change (stdout_of (?e :: ?t)) with (stdout_of [e] ++ stdout_of t).
    rewrite IH. reflexivity.
  - change (stdout_of (?e :: ?t)) with (stdout_of [e] ++ stdout_of t).
    rewrite IH. reflexivity.
Qed.

Lemma stderr_dump_spki_list_valid (l : list string) :
  Forall (fun s => exists d, base64_DecodeString s = Ok d) l ->
  stderr_of (dump_spki_list base64_DecodeString l) = []
  /\ Forall2 (fun s d => base64_DecodeString s = Ok d) l
             (valid_digests base64_DecodeString l).
Proof.
  induction 1 as [|s l (d & Hd) _ (IH1 & IH2)]; [split; [reflexivity|constructor]|].
  cbn [dump_spki_list valid_digests flat_map]. rewrite Hd. split.
  - change (stderr_of (?e :: ?t)) with (stderr_of [e] ++ stderr_of t).
    rewrite IH1. reflexivity.
  - constructor; assumption.
Qed.

Lemma valid_digests_app (a b : list string) :
  valid_digests base64_DecodeString (a ++ b)
  = valid_digests base64_DecodeString a ++ valid_digests base64_DecodeString b.
Proof. apply flat_map_app. Qed.

(** C7: when the three lists of a header hold one entry that does not decode
    among entries that all decode, [dumpSPKIs] prints one line for each valid
    entry, with its digest and in the order of the lists, reports the
    malformed entry once, goes on with the entries after it, and returns
    [true]. *)
Theorem dumpSPKIs_skips_malformed_entry (filename : string) (t0 : list event)
    (h : crlSetHeader) (c : list byte) (pre post : list string) (bad e : string) :
  getHeader' filename = (t0, (h, c, true)) ->
  BlockedSPKIs h ++ KnownInterceptionSPKIs h ++ BlockedInterceptionSPKIs h
  = pre ++ bad :: post ->
  Forall (fun s => exists d, base64_DecodeString s = Ok d) (pre ++ post) ->
  base64_DecodeString bad = Err e ->
  exists t digests,
    dumpSPKIs' filename = (t, true)
    /\ Forall2 (fun s d => base64_DecodeString s = Ok d) (pre ++ post) digests
    /\ stdout_of t = map (fun d => (tab ++ tab ++ "\\x" ++ hex d ++ nl)%string) digests
    /\ stderr_of t = [(bad ++ " is not a valid SPKI" ++ nl)%string].
Proof.
  intros Hh Hlists Hvalid Hbad.
  pose proof (getHeader_ok_inv _ _ _ _ Hh) as (_ & _ & _ & _ & ->).
  exists (dump_fields base64_DecodeString (fields h)),
         (valid_digests base64_DecodeString (pre ++ post)).
  apply Forall_app in Hvalid as Hsplit. destruct Hsplit as [Hpre Hpost].
  destruct (stderr_dump_spki_list_valid pre Hpre) as [Epre _].
  destruct (stderr_dump_spki_list_valid post Hpost) as [Epost _].
  destruct (stderr_dump_spki_list_valid _ Hvalid) as [_ Hdigests].
  split; [|split; [exact Hdigests|split]].
  - unfold dumpSPKIs. rewrite Hh. reflexivity.
  - rewrite dump_fields_header. unfold all_spkis. rewrite Hlists.
    rewrite stdout_dump_spki_list. fold spki_line.
    rewrite !valid_digests_app. cbn [valid_digests flat_map].
    rewrite Hbad. reflexivity.
  - rewrite dump_fields_header. unfold all_spkis. rewrite Hlists.
    rewrite dump_spki_list_app. cbn [dump_spki_list]. rewrite Hbad.
    rewrite stderr_of_app.
    change (stderr_of (?x :: ?t)) with (stderr_of [x] ++ stderr_of t).
    rewrite Epre, Epost. reflexivity.
Qed.

End FilesFacts.

(** ** The sample files *)

Lemma getHeader_reads_u16_length_witness :
  exists headerBytes body,
    list_byte_of_string "{}"%string ++ body_ex = headerBytes ++ body
    /\ len headerBytes = 2
    /\ getHeader (single_file "crl-set"%string file_ex) json.Unmarshal "crl-set"%string
       = match json.Unmarshal headerBytes zero_header with
         | (header, Some err) =>
             ([Stderr ("Failed to parse header: " ++ err)%string], (header, [], false))
         | (header, None) => ([], (header, body, true))
         end.
Proof.
  apply (proj2 (getHeader_reads_u16_length (single_file "crl-set"%string file_ex) json.Unmarshal
                  "crl-set"%string file_ex eq_refl)
           x02 x00 (list_byte_of_string "{}"%string ++ body_ex) eq_refl).
  vm_compute. discriminate.
Defined.

Lemma dump_consumes_whole_body_witness :
  exists headerBytes bs,
    single_file "crl-set"%string file_ex "crl-set"%string = Ok (encode_file headerBytes bs)
    /\ Forall wf_block bs /\ body_ex = encode_body bs
    /\ body_size bs = len body_ex
    /\ dump_loop (List.length body_ex) [] body_ex
       = Some ([Stdout (fmt_record fp00 [xab]); Stdout (fmt_record fp00 [x01; x02])],
               Next []).
Proof.
  apply (dump_consumes_whole_body (single_file "crl-set"%string file_ex) json.Unmarshal
           "crl-set"%string [] [] zero_header body_ex).
  - vm_compute. reflexivity.
  - vm_compute. reflexivity.
Defined.


Lemma dumpSPKIs_skips_malformed_entry_witness :
  exists t digests,
    dumpSPKIs (single_file "crl-set"%string file_spkis) json.Unmarshal base64.DecodeString "crl-set"%string
    = (t, true)
    /\ Forall2 (fun s d => base64.DecodeString s = Ok d) ["AAEC"; "/w=="]%string digests
    /\ stdout_of t = map (fun d => (tab ++ tab ++ "\\x" ++ hex d ++ nl)%string) digests
    /\ stderr_of t = [("!!! is not a valid SPKI" ++ nl)%string].
Proof.
  apply (dumpSPKIs_skips_malformed_entry (single_file "crl-set"%string file_spkis) json.Unmarshal
           base64.DecodeString "crl-set"%string []
           {| Sequence := 7; NumParents := 0; BlockedSPKIs := ["AAEC"; "!!!"]%string;
              KnownInterceptionSPKIs := ["/w=="]%string; BlockedInterceptionSPKIs := [] |}
           [] ["AAEC"%string] ["/w=="%string] "!!!"%string "illegal base64 data"%string).
  - vm_compute. reflexivity.
  - reflexivity.
  - repeat constructor; eexists; vm_compute; reflexivity.
  - vm_compute. reflexivity.
Defined.

(** C2 fails as stated: behind a header length of 0 the header is empty,
    [json.Unmarshal] rejects it, and the dump returns [false] without a
    record. *)
Lemma dump_empty_header_counterexample :
  file_empty_header = [x00; x00] ++ body_ex
  /\ dump (single_file "crl-set"%string file_empty_header) json.Unmarshal
          no_pem no_certificate no_digest "crl-set"%string ""%string
     = Some ([Stderr "Failed to parse header: unexpected end of JSON input"%string], false).
Proof.
  split; [reflexivity|]. vm_compute. reflexivity.
Qed.

(** C2, as the program has it: for the file made of the header length 2, the
    header [{}] and one block with fingerprint [00 x 32], count 2 and the
    serials [AB] and [01 02], the dump without a filter returns [true] after
    the two records of that fingerprint; on the body of that file, the dump
    filtered by [00 x 32] prints [ab] and [0102], and the dump filtered by
    [FF x 32] prints nothing. *)
Theorem dump_sample_file :
  file_ex = [x02; x00] ++ list_byte_of_string "{}"%string ++ body_ex
  /\ dump (single_file "crl-set"%string file_ex) json.Unmarshal
          no_pem no_certificate no_digest "crl-set"%string ""%string
     = Some ([Stdout ("\\x" ++ hex fp00 ++ tab ++ "\\xab" ++ tab ++ nl)%string;
              Stdout ("\\x" ++ hex fp00 ++ tab ++ "\\x0102" ++ tab ++ nl)%string], true)
  /\ dump_body fp00 body_ex
     = Some ([Stdout ("ab" ++ nl)%string; Stdout ("0102" ++ nl)%string], true)
  /\ dump_body fpff body_ex = Some ([], true).
Proof.
  repeat split; vm_compute; reflexivity.
Qed.

(** ** The container *)

Lemma to_int_id (z : Z) : - 2 ^ 63 <= z < 2 ^ 63 -> to_int z = z.
Proof.
  intros H. unfold to_int. rewrite Z.mod_small by lia. lia.
Qed.

(** C8, as the program has it: [fetch] reads the twelve bytes of the fixed
    header before it looks at the magic.  Bytes that do not start with
    [Cr24] are rejected whatever follows: as not looking like a CRX when the
    twelve bytes are there, and with the error of the header read when they
    are not. *)
Theorem fetch_crx_rejects_bad_magic
    (zip_NewReader :
       (list byte -> Z -> go (list byte * (Z * option string))) -> Z -> result (list zip_File))
    (crxBytes : list byte) :
  slice_to crxBytes 4 <> list_byte_of_string "Cr24" ->
  (12 <= len crxBytes ->
   fetch_crx zip_NewReader crxBytes
   = ([Stderr ("Downloaded file doesn't look like a CRX" ++ nl)%string], false))
  /\ (len crxBytes < 12 ->
      exists err,
        fetch_crx zip_NewReader crxBytes
        = ([Stderr ("Failed to parse CRX header: " ++ err ++ nl)%string], false)).
Proof.
  intros Hmagic. unfold fetch_crx, binary_Read. split; intros Hlen.
  - destruct (Z.eqb_spec (len crxBytes) 0); [lia|].
    destruct (Z.ltb_spec (len crxBytes) 12); [lia|].
    cbn [Magic HeaderLen].
    destruct (bytes_Equal (slice_to crxBytes 4) magic) eqn:E.
    + apply bytes_Equal_spec in E. contradiction.
    + reflexivity.
  - destruct (Z.eqb_spec (len crxBytes) 0); [eexists; reflexivity|].
    destruct (Z.ltb_spec (len crxBytes) 12); [eexists; reflexivity|lia].
Qed.

Lemma fetch_crx_rejects_bad_magic_witness :
  fetch_crx no_zip crx_bad_magic
  = ([Stderr ("Downloaded file doesn't look like a CRX" ++ nl)%string], false).
Proof.
  apply (proj1 (fetch_crx_rejects_bad_magic no_zip crx_bad_magic
                  ltac:(vm_compute; discriminate))).
  vm_compute. discriminate.
Defined.

(** C8 fails as stated: four bytes that are not the magic, with nothing
    after them, are rejected by the read of the fixed header, and not with
    the diagnostic of a file that is not a CRX. *)
Lemma fetch_crx_short_counterexample :
  len crx_short = 4
  /\ slice_to crx_short 4 <> list_byte_of_string "Cr24"
  /\ fetch_crx no_zip crx_short
     = ([Stderr ("Failed to parse CRX header: unexpected EOF" ++ nl)%string], false)
  /\ fetch_crx no_zip crx_short
     <> ([Stderr ("Downloaded file doesn't look like a CRX" ++ nl)%string], false).
Proof.
  split; [reflexivity|].
  split; [vm_compute; discriminate|].
  split; [vm_compute; reflexivity|].
  vm_compute. discriminate.
Qed.

(** C9: [ReadAt] at a negative position copies nothing and returns a nil
    error; whenever it returns, the error is nil; and at a position up to the
    end of the buffer it copies what is left from there, up to the length of
    [p], fewer bytes than asked when the end is near, still with a nil
    error. *)
Theorem ReadAt_never_errors (z p : list byte) (pos : Z) :
  - 2 ^ 63 <= pos < 2 ^ 63 ->
  (pos < 0 -> ReadAt z p pos = Ret (p, (0, None)))
  /\ (forall p' n err, ReadAt z p pos = Ret (p', (n, err)) -> err = None)
  /\ (0 <= pos <= len z ->
      exists p',
        ReadAt z p pos = Ret (p', (Z.min (len p) (len z - pos), None))
        /\ slice_to p' (Z.min (len p) (len z - pos))
           = slice_to (slice_from z pos) (Z.min (len p) (len z - pos))).
Proof.
  intros Hpos. unfold ReadAt. rewrite to_int_id by exact Hpos.
  split; [|split].
  - intros Hneg. destruct (Z.ltb_spec pos 0); [reflexivity|lia].
  - intros p' n err.
    destruct (pos <? 0); [intros H; injection H as _ _ <-; reflexivity|].
    destruct (len z <? pos); [discriminate|].
    unfold copy. intros H. injection H as _ _ <-. reflexivity.
  - intros Hin. destruct (Z.ltb_spec pos 0); [lia|].
    destruct (Z.ltb_spec (len z) pos); [lia|].
    unfold copy. rewrite len_slice_from by lia.
    eexists. split; [reflexivity|].
    apply slice_to_app. rewrite len_slice_to; [reflexivity|].
    rewrite len_slice_from by lia. pose proof (len_nonneg p). lia.
Qed.

Lemma ReadAt_never_errors_witness :
  ReadAt [x01; x02; x03] [x00; x00] (-1) = Ret ([x00; x00], (0, None))
  /\ (exists p',
         ReadAt [x01; x02; x03] [x00; x00] 2 = Ret (p', (1, None))
         /\ slice_to p' 1 = [x03]).
Proof.
  split.
  - apply (proj1 (ReadAt_never_errors [x01; x02; x03] [x00; x00] (-1) ltac:(lia))). lia.
  - apply (proj2 (proj2 (ReadAt_never_errors [x01; x02; x03] [x00; x00] 2 ltac:(lia)))).
    cbn. lia.
Defined.

(** ** More on the body loop *)

Lemma body_events_unfiltered (bs : list block) :
  body_events [] bs = map Stdout (record_lines bs).
Proof.
  unfold body_events, record_lines.
  induction bs as [|b bs IH]; [reflexivity|].
  cbn [flat_map]. rewrite map_app, IH. f_equal.
  unfold serial_events, print_serial, current_spki_of. cbn [len List.length Z.of_nat Z.eqb].
  induction (serials b) as [|s ss IHs]; [reflexivity|].
  cbn [flat_map map app]. rewrite IHs. reflexivity.
Qed.

Lemma body_events_filtered (spki : list byte) (bs : list block) :
  len spki <> 0 -> body_events spki bs = map Stdout (matching_lines spki bs).
Proof.
  intros Hs. unfold body_events, matching_lines.
  induction bs as [|b bs IH]; [reflexivity|].
  cbn [flat_map filter]. rewrite IH.
  unfold serial_events, print_serial.
  destruct (Z.eqb_spec (len spki) 0); [contradiction|].
  destruct (bytes_Equal spki (fingerprint b)).
  - cbn [map List.concat]. rewrite map_app. f_equal.
    induction (serials b) as [|s ss IHs]; [reflexivity|].
    cbn [flat_map map app]. rewrite IHs. reflexivity.
  - replace (flat_map (fun _ : list byte => []) (serials b)) with (@nil event);
      [reflexivity|].
    induction (serials b) as [|s ss IHs]; [reflexivity|exact IHs].
Qed.

(** The dump of whole blocks followed by more bytes prints what the blocks
    give and goes on as the dump of the bytes after them does: the output for
    the blocks read so far does not depend on what follows them. *)
Theorem dump_body_after_whole_blocks (spki : list byte) (bs : list block) (tail : list byte) :
  Forall wf_block bs ->
  dump_body spki (encode_body bs ++ tail)
  = match dump_body spki tail with
    | Some (t, b) =>
        Some (map Stdout (if len spki =? 0 then record_lines bs else matching_lines spki bs)
                ++ t, b)
    | None => None
    end.
Proof.
  intros Hwf. rewrite !dump_body_run, run_dump_whole by assumption.
  assert (He : body_events spki bs
               = map Stdout (if len spki =? 0 then record_lines bs
                             else matching_lines spki bs)).
  { destruct (Z.eqb_spec (len spki) 0) as [H0|H0].
    - destruct spki; [apply body_events_unfiltered|].
      rewrite len_cons in H0. pose proof (len_nonneg spki). lia.
    - apply body_events_filtered. exact H0. }
  rewrite He. destruct (run_dump spki tail) as [[t [c|b]]|]; reflexivity.
Qed.

Lemma dump_body_after_whole_blocks_witness :
  dump_body fp00 (encode_body [block_ex] ++ body_count3)
  = match dump_body fp00 body_count3 with
    | Some (t, b) =>
        Some (map Stdout (if len fp00 =? 0 then record_lines [block_ex]
                          else matching_lines fp00 [block_ex]) ++ t, b)
    | None => None
    end.
Proof.
  exact (dump_body_after_whole_blocks fp00 [block_ex] body_count3 body_ex_wf).
Defined.

(** A dump of the body that returns [true] wrote nothing to the error
    stream, and one that returns [false] wrote exactly one diagnostic, the
    last thing it wrote. *)
Lemma dump_body_diagnostics (spki c : list byte) (t : list event) (b : bool) :
  dump_body spki c = Some (t, b) ->
  (b = true -> stderr_of t = [])
  /\ (b = false -> exists t' msg, t = t' ++ [Stderr msg] /\ stderr_of t' = []).
Proof.
  rewrite dump_body_run.
  destruct (run_dump spki c) as [[t' [c'|b']]|] eqn:E; [| |discriminate].
  - intros H. injection H as <- <-. split; [|discriminate].
    intros _. apply run_dump_Next in E. destruct E as (bs & _ & _ & _ & ->).
    apply stderr_body_events.
  - intros H. injection H as <- <-.
    apply run_dump_Return in E.
    destruct E as (bs & st & tail & fp & ss & _ & _ & _ & -> & ->).
    split; [discriminate|]. intros _.
    exists (body_events spki bs ++ serial_events spki fp ss), (truncated_at st).
    split; [rewrite <- app_assoc; reflexivity|].
    rewrite stderr_of_app, stderr_body_events, stderr_serial_events. reflexivity.
Qed.

(** ** More on files *)

Section MoreFilesFacts.

Variable ReadFile : string -> result (list byte).
Variable json_Unmarshal : list byte -> crlSetHeader -> crlSetHeader * option string.
Variable pem_Decode : list byte -> option (list byte).
Variable x509_ParseCertificate : list byte -> result (list byte).
Variable sha256_Sum : list byte -> list byte.
Variable base64_DecodeString : string -> result (list byte).

Local Abbreviation getHeader' := (getHeader ReadFile json_Unmarshal).
Local Abbreviation dump' :=
  (dump ReadFile json_Unmarshal pem_Decode x509_ParseCertificate sha256_Sum).
Local Abbreviation dumpSPKIs' := (dumpSPKIs ReadFile json_Unmarshal base64_DecodeString).
Local Abbreviation certificate_spki' :=
  (certificate_spki ReadFile pem_Decode x509_ParseCertificate sha256_Sum).

(** [getHeader] succeeds exactly on a file made of the 16-bit length of a
    header, a header that [json.Unmarshal] accepts, and the rest, which it
    hands back untouched; it writes nothing then. *)
Theorem getHeader_ok_iff (filename : string) (t : list event) (h : crlSetHeader)
    (rest : list byte) :
  getHeader' filename = (t, (h, rest, true))
  <-> (t = []
       /\ exists headerBytes,
           ReadFile filename = Ok (le_bytes16 (len headerBytes) ++ headerBytes ++ rest)
           /\ len headerBytes < 2 ^ 16
           /\ json_Unmarshal headerBytes zero_header = (h, None)).
Proof.
  split.
  - intros H. apply getHeader_ok_inv in H. destruct H as (hb & Hr & Hl & Hj & Ht).
    split; [exact Ht|]. exists hb. auto.
  - intros (-> & hb & Hr & Hl & Hj). pose proof (len_nonneg hb).
    unfold le_bytes16 in Hr. rewrite (getHeader_bytes ReadFile json_Unmarshal _ _ _ _ Hr).
    rewrite !byte_val_of_Z_mod, le_digits16 by lia.
    rewrite len_app. pose proof (len_nonneg rest).
    destruct (Z.ltb_spec (len hb + len rest) (len hb)); [lia|].
    rewrite slice_to_app, slice_from_app by reflexivity.
    unfold parsed_header. rewrite Hj. reflexivity.
Qed.

(** A CRLSet file that cannot be read stops [getHeader], [dump] and
    [dumpSPKIs] with the one diagnostic of the read, whatever the
    certificate argument is. *)
Theorem unreadable_file_is_fatal (filename certificateFilename err : string) :
  ReadFile filename = Err err ->
  getHeader' filename
  = ([Stderr ("Failed to read CRLSet: " ++ err ++ nl)%string], (zero_header, [], false))
  /\ dump' filename certificateFilename
     = Some ([Stderr ("Failed to read CRLSet: " ++ err ++ nl)%string], false)
  /\ dumpSPKIs' filename = ([Stderr ("Failed to read CRLSet: " ++ err ++ nl)%string], false).
Proof.
  intros Hr.
  assert (Hh : getHeader' filename
               = ([Stderr ("Failed to read CRLSet: " ++ err ++ nl)%string],
                  (zero_header, [], false))).
  { unfold getHeader. rewrite Hr. reflexivity. }
  split; [exact Hh|]. split.
  - unfold dump. rewrite Hh. reflexivity.
  - unfold dumpSPKIs. rewrite Hh. reflexivity.
Qed.

(** Without a certificate argument, [dump] of a file with a header that
    decodes and whole blocks prints one record for every serial of every
    block, in order, each with the fingerprint of its block, and returns
    [true]. *)
Theorem dump_unfiltered_prints_every_serial (filename : string) (headerBytes : list byte)
    (h : crlSetHeader) (bs : list block) :
  ReadFile filename = Ok (encode_file headerBytes bs) ->
  len headerBytes < 2 ^ 16 ->
  json_Unmarshal headerBytes zero_header = (h, None) ->
  Forall wf_block bs ->
  dump' filename EmptyString
  = Some (map Stdout
            (flat_map (fun b => map (fmt_record (fingerprint b)) (serials b)) bs), true).
Proof.
  intros Hr Hl Hj Hwf.
  assert (Hh : getHeader' filename = ([], (h, encode_body bs, true))).
  { rewrite (getHeader_file ReadFile json_Unmarshal _ _ _ Hr Hl). unfold parsed_header. rewrite Hj. reflexivity. }
  rewrite (dump_body_of_file ReadFile json_Unmarshal pem_Decode x509_ParseCertificate
             sha256_Sum filename EmptyString [] h (encode_body bs) [] [] Hh eq_refl).
  rewrite dump_body_whole by assumption. rewrite body_events_unfiltered. reflexivity.
Qed.

(** With a certificate argument, [dump] filters by the SHA-256 digest of the
    certificate's public key info: the certificate file is parsed from the
    bytes of its first PEM block when it has one and from its own bytes
    otherwise, and for whole blocks the output is the serials of the blocks
    whose fingerprint is the digest. *)
Theorem dump_filters_by_certificate (filename certificateFilename : string)
    (headerBytes : list byte) (h : crlSetHeader) (bs : list block)
    (certBytes rawSubjectPublicKeyInfo : list byte) :
  ReadFile filename = Ok (encode_file headerBytes bs) ->
  len headerBytes < 2 ^ 16 ->
  json_Unmarshal headerBytes zero_header = (h, None) ->
  Forall wf_block bs ->
  certificateFilename <> EmptyString ->
  ReadFile certificateFilename = Ok certBytes ->
  x509_ParseCertificate (der_bytes pem_Decode certBytes) = Ok rawSubjectPublicKeyInfo ->
  len (sha256_Sum rawSubjectPublicKeyInfo) = 32 ->
  dump' filename certificateFilename
  = Some (map Stdout
            (List.concat
               (map (fun b => map fmt_serial (serials b))
                    (filter (fun b => bytes_Equal (sha256_Sum rawSubjectPublicKeyInfo)
                                                  (fingerprint b)) bs))), true).
Proof.
  intros Hr Hl Hj Hwf Hname Hcert Hparse Hsha.
  assert (Hh : getHeader' filename = ([], (h, encode_body bs, true))).
  { rewrite (getHeader_file ReadFile json_Unmarshal _ _ _ Hr Hl). unfold parsed_header. rewrite Hj. reflexivity. }
  assert (Hc : certificate_spki' certificateFilename
               = ([], Some (sha256_Sum rawSubjectPublicKeyInfo))).
  { unfold certificate_spki. destruct certificateFilename; [contradiction|].
    cbn [String.length Nat.ltb Nat.leb]. rewrite Hcert.
    unfold der_bytes in Hparse. rewrite Hparse. reflexivity. }
  rewrite (dump_body_of_file ReadFile json_Unmarshal pem_Decode x509_ParseCertificate
             sha256_Sum _ _ _ _ _ _ _ Hh Hc).
  rewrite dump_body_whole by assumption.
  rewrite body_events_filtered by lia. reflexivity.
Qed.

(** A certificate that cannot be read, or that does not parse, makes [dump]
    return [false] after the one diagnostic, before any byte of the body is
    looked at: nothing is printed even when the body holds records. *)
Theorem dump_certificate_failure_is_fatal (filename certificateFilename : string)
    (t0 : list event) (h : crlSetHeader) (c : list byte) :
  getHeader' filename = (t0, (h, c, true)) ->
  certificateFilename <> EmptyString ->
  (forall err,
      ReadFile certificateFilename = Err err ->
      dump' filename certificateFilename
      = Some ([Stderr ("Failed to read certificate: " ++ err ++ nl)%string], false))
  /\ (forall certBytes err,
         ReadFile certificateFilename = Ok certBytes ->
         x509_ParseCertificate (der_bytes pem_Decode certBytes) = Err err ->
         dump' filename certificateFilename
         = Some ([Stderr ("Failed to parse certificate: " ++ err ++ nl)%string], false)).
Proof.
  intros Hh Hname.
  pose proof (getHeader_ok_inv ReadFile json_Unmarshal _ _ _ _ Hh) as (_ & _ & _ & _ & ->).
  destruct certificateFilename as [|a s]; [contradiction|].
  split.
  - intros err Hr. unfold dump, certificate_spki. rewrite Hh.
    cbn [negb String.length Nat.ltb Nat.leb]. rewrite Hr. reflexivity.
  - intros certBytes err Hr Hp. unfold dump, certificate_spki. rewrite Hh.
    cbn [negb String.length Nat.ltb Nat.leb]. rewrite Hr.
    unfold der_bytes in Hp. rewrite Hp. reflexivity.
Qed.

Lemma certificate_spki_diagnostics (certificateFilename : string) (t : list event)
    (o : option (list byte)) :
  certificate_spki' certificateFilename = (t, o) ->
  match o with
  | Some _ => t = []
  | None => exists msg, t = [Stderr msg]
  end.
Proof.
  unfold certificate_spki.
  destruct (0 <? String.length certificateFilename)%nat.
  - destruct (ReadFile certificateFilename) as [certBytes|e].
    + destruct (x509_ParseCertificate _) as [raw|e];
        intros H; injection H as <- <-; eauto.
    + intros H. injection H as <- <-. eauto.
  - intros H. injection H as <- <-. reflexivity.
Qed.

Lemma getHeader_diagnostics (filename : string) (t : list event) (h : crlSetHeader)
    (c : list byte) (ok : bool) :
  getHeader' filename = (t, (h, c, ok)) ->
  if ok then t = [] else exists msg, t = [Stderr msg] /\ c = [].
Proof.
  unfold getHeader. destruct (ReadFile filename) as [c0|e].
  - destruct (len c0 <? 2); [intros H; injection H as <- _ <- <-; eauto|].
    destruct (len (slice_from c0 2) <? _); [intros H; injection H as <- _ <- <-; eauto|].
    destruct (json_Unmarshal _ _) as [h' [err|]];
      intros H; injection H as <- _ <- <-; eauto.
  - intros H. injection H as <- _ <- <-. eauto.
Qed.

Lemma dump_diagnostics (filename certificateFilename : string)
    (t : list event) (b : bool) :
  dump' filename certificateFilename = Some (t, b) ->
  (b = true -> stderr_of t = [])
  /\ (b = false -> exists t' msg, t = t' ++ [Stderr msg] /\ stderr_of t' = []).
Proof.
  unfold dump.
  destruct (getHeader' filename) as [t0 [[h c] ok]] eqn:Hh.
  apply getHeader_diagnostics in Hh. destruct ok; cbn [negb].
  - subst t0. destruct (certificate_spki' certificateFilename) as [t1 [spki|]] eqn:Hc;
      apply certificate_spki_diagnostics in Hc.
    + subst t1. destruct (dump_body spki c) as [[t2 b2]|] eqn:Hb; [|discriminate].
      intros H. injection H as <- <-. cbn [app].
      apply dump_body_diagnostics in Hb. exact Hb.
    + destruct Hc as (msg & ->). intros H. injection H as <- <-.
      split; [discriminate|]. intros _. exists [], msg. split; reflexivity.
  - destruct Hh as (msg & -> & _). intros H. injection H as <- <-.
    split; [discriminate|]. intros _. exists [], msg. split; reflexivity.
Qed.

(** [dump] reports every failure and nothing else: a run that returns
    [true] wrote nothing to the error stream, and a run that returns [false]
    ended on its one diagnostic. *)
Theorem dump_reports_every_failure (filename certificateFilename : string)
    (t : list event) (b : bool) :
  dump' filename certificateFilename = Some (t, b) ->
  (b = true -> stderr_of t = [])
  /\ (b = false -> exists t' msg, t = t' ++ [Stderr msg] /\ stderr_of t' = []).
Proof.
  intros H. split.
  - intros Hb. exact (proj1 (dump_diagnostics _ _ _ _ H) Hb).
  - intros Hb. exact (proj2 (dump_diagnostics _ _ _ _ H) Hb).
Qed.

(** [dumpSPKIs] on a file whose header decodes: one line for each entry of
    the three lists that is base64, in the order [BlockedSPKIs],
    [KnownInterceptionSPKIs], [BlockedInterceptionSPKIs], one diagnostic for
    each entry that is not, and [true] however many of them there are; the
    integer fields are never printed. *)
Theorem dumpSPKIs_prints_the_three_lists (filename : string) (t0 : list event)
    (h : crlSetHeader) (c : list byte) :
  getHeader' filename = (t0, (h, c, true)) ->
  exists t,
    dumpSPKIs' filename = (t, true)
    /\ stdout_of t
       = map (fun d => (tab ++ tab ++ "\\x" ++ hex d ++ nl)%string)
             (valid_digests base64_DecodeString
                (BlockedSPKIs h ++ KnownInterceptionSPKIs h ++ BlockedInterceptionSPKIs h))
    /\ stderr_of t
       = map (fun s => (s ++ " is not a valid SPKI" ++ nl)%string)
             (invalid_entries base64_DecodeString
                (BlockedSPKIs h ++ KnownInterceptionSPKIs h ++ BlockedInterceptionSPKIs h)).
Proof.
  intros Hh.
  pose proof (getHeader_ok_inv ReadFile json_Unmarshal _ _ _ _ Hh) as (_ & _ & _ & _ & ->).
  exists (dump_fields base64_DecodeString (fields h)).
  split; [unfold dumpSPKIs; rewrite Hh; reflexivity|].
  rewrite dump_fields_header. fold (all_spkis h).
  split; [apply stdout_dump_spki_list|].
  induction (all_spkis h) as [|s l IH]; [reflexivity|].
  cbn [dump_spki_list invalid_entries filter].
  destruct (base64_DecodeString s) as [d|e].
  - change (stderr_of (?x :: ?t)) with (stderr_of [x] ++ stderr_of t).
    rewrite IH. reflexivity.
  - change (stderr_of (?x :: ?t)) with (stderr_of [x] ++ stderr_of t).
    rewrite IH. reflexivity.
Qed.

End MoreFilesFacts.

Lemma getHeader_ok_iff_witness :
  getHeader (single_file "crl-set"%string file_ex) json.Unmarshal "crl-set"%string
  = ([], (zero_header, body_ex, true)).
Proof.
  apply (proj2 (getHeader_ok_iff (single_file "crl-set"%string file_ex) json.Unmarshal
                  "crl-set"%string [] zero_header body_ex)).
  split; [reflexivity|]. exists (list_byte_of_string "{}"%string).
  split; [reflexivity|]. split; [cbn; lia|vm_compute; reflexivity].
Defined.

Lemma unreadable_file_is_fatal_witness :
  dump (single_file "crl-set"%string file_ex) json.Unmarshal no_pem no_certificate no_digest
       "missing"%string "cert.pem"%string
  = Some ([Stderr ("Failed to read CRLSet: open missing: no such file or directory" ++ nl)%string],
          false).
Proof.
  exact (proj1 (proj2 (unreadable_file_is_fatal (single_file "crl-set"%string file_ex)
                         json.Unmarshal no_pem no_certificate no_digest base64.DecodeString
                         "missing"%string "cert.pem"%string "open missing: no such file or directory"%string
                         eq_refl))).
Defined.

Lemma dump_unfiltered_prints_every_serial_witness :
  dump (single_file "crl-set"%string file_ex) json.Unmarshal no_pem no_certificate no_digest
       "crl-set"%string ""%string
  = Some (map Stdout [fmt_record fp00 [xab]; fmt_record fp00 [x01; x02]], true).
Proof.
  apply (dump_unfiltered_prints_every_serial (single_file "crl-set"%string file_ex) json.Unmarshal
           no_pem no_certificate no_digest "crl-set"%string (list_byte_of_string "{}"%string)
           zero_header [block_ex]).
  - reflexivity.
  - cbn. lia.
  - vm_compute. reflexivity.
  - exact body_ex_wf.
Defined.

Lemma dump_filters_by_certificate_witness :
  dump (two_files "crl-set"%string (encode_file (list_byte_of_string "{}"%string) body_dup)
                  "cert.der"%string [x30; x00])
       json.Unmarshal no_pem sample_certificate sample_digest "crl-set"%string "cert.der"%string
  = Some (map Stdout (map fmt_serial [[xab]; [xcd]; [xef]]), true).
Proof.
  apply (dump_filters_by_certificate
           (two_files "crl-set"%string (encode_file (list_byte_of_string "{}"%string) body_dup)
                      "cert.der"%string [x30; x00])
           json.Unmarshal no_pem sample_certificate sample_digest "crl-set"%string "cert.der"%string
           (list_byte_of_string "{}"%string) zero_header body_dup [x30; x00] [x30; x00]).
  - reflexivity.
  - cbn. lia.
  - vm_compute. reflexivity.
  - exact body_dup_wf.
  - discriminate.
  - reflexivity.
  - reflexivity.
  - reflexivity.
Defined.

Lemma dump_certificate_failure_is_fatal_witness :
  dump (single_file "crl-set"%string file_ex) json.Unmarshal no_pem no_certificate no_digest
       "crl-set"%string "cert.pem"%string
  = Some ([Stderr ("Failed to read certificate: open cert.pem: no such file or directory"
                   ++ nl)%string], false).
Proof.
  apply (proj1 (dump_certificate_failure_is_fatal (single_file "crl-set"%string file_ex)
                  json.Unmarshal no_pem no_certificate no_digest "crl-set"%string "cert.pem"%string
                  [] zero_header body_ex
                  ltac:(vm_compute; reflexivity) ltac:(discriminate))).
  reflexivity.
Defined.

Lemma dump_reports_every_failure_witness :
  exists t' msg,
    [Stderr "Failed to parse header: unexpected end of JSON input"%string]
    = t' ++ [Stderr msg] /\ stderr_of t' = [].
Proof.
  apply (proj2 (dump_reports_every_failure (single_file "crl-set"%string file_empty_header)
                  json.Unmarshal no_pem no_certificate no_digest "crl-set"%string ""%string
                  [Stderr "Failed to parse header: unexpected end of JSON input"%string]
                  false ltac:(vm_compute; reflexivity))).
  reflexivity.
Defined.

Lemma dumpSPKIs_prints_the_three_lists_witness :
  exists t,
    dumpSPKIs (single_file "crl-set"%string file_spkis) json.Unmarshal base64.DecodeString "crl-set"%string
    = (t, true)
    /\ stdout_of t
       = map (fun d => (tab ++ tab ++ "\\x" ++ hex d ++ nl)%string)
             (valid_digests base64.DecodeString (["AAEC"%string; "!!!"%string] ++ ["/w=="%string] ++ []))
    /\ stderr_of t
       = map (fun s => (s ++ " is not a valid SPKI" ++ nl)%string)
             (invalid_entries base64.DecodeString (["AAEC"%string; "!!!"%string] ++ ["/w=="%string] ++ [])).
Proof.
  apply (dumpSPKIs_prints_the_three_lists (single_file "crl-set"%string file_spkis) json.Unmarshal
           base64.DecodeString "crl-set"%string []
           {| Sequence := 7; NumParents := 0; BlockedSPKIs := ["AAEC"; "!!!"]%string;
              KnownInterceptionSPKIs := ["/w=="]%string; BlockedInterceptionSPKIs := [] |}
           []).
  vm_compute. reflexivity.
Defined.

Lemma getHeader_raw
    (ReadFile : string -> result (list byte))
    (json_Unmarshal : list byte -> crlSetHeader -> crlSetHeader * option string)
    (filename : string) (headerBytes rest : list byte) :
  ReadFile filename = Ok (le_bytes16 (len headerBytes) ++ headerBytes ++ rest) ->
  len headerBytes < 2 ^ 16 ->
  getHeader ReadFile json_Unmarshal filename = parsed_header json_Unmarshal headerBytes rest.
Proof.
  intros Hr Hlen. pose proof (len_nonneg headerBytes).
  unfold le_bytes16 in Hr.
  rewrite (getHeader_bytes ReadFile json_Unmarshal _ _ _ _ Hr).
  rewrite !byte_val_of_Z_mod, le_digits16 by lia.
  rewrite len_app. pose proof (len_nonneg rest).
  destruct (Z.ltb_spec (len headerBytes + len rest) (len headerBytes)); [lia|].
  rewrite slice_to_app, slice_from_app by reflexivity. reflexivity.
Qed.

(** [dumpSPKIs] never looks at the body: two files with the same header give
    the same output and the same result, whatever follows the header, even a
    body that [dump] would reject. *)
Theorem dumpSPKIs_ignores_body
    (ReadFile1 ReadFile2 : string -> result (list byte))
    (json_Unmarshal : list byte -> crlSetHeader -> crlSetHeader * option string)
    (base64_DecodeString : string -> result (list byte))
    (filename1 filename2 : string) (headerBytes rest1 rest2 : list byte) :
  ReadFile1 filename1 = Ok (le_bytes16 (len headerBytes) ++ headerBytes ++ rest1) ->
  ReadFile2 filename2 = Ok (le_bytes16 (len headerBytes) ++ headerBytes ++ rest2) ->
  len headerBytes < 2 ^ 16 ->
  dumpSPKIs ReadFile1 json_Unmarshal base64_DecodeString filename1
  = dumpSPKIs ReadFile2 json_Unmarshal base64_DecodeString filename2.
Proof.
  intros H1 H2 Hlen. unfold dumpSPKIs.
  rewrite (getHeader_raw _ _ _ _ _ H1 Hlen), (getHeader_raw _ _ _ _ _ H2 Hlen).
  unfold parsed_header.
  destruct (json_Unmarshal headerBytes zero_header) as [h [err|]]; reflexivity.
Qed.

Lemma dumpSPKIs_ignores_body_witness :
  dumpSPKIs (single_file "a"%string (le_bytes16 2 ++ list_byte_of_string "{}"%string ++ body_ex))
            json.Unmarshal base64.DecodeString "a"%string
  = dumpSPKIs (single_file "b"%string (le_bytes16 2 ++ list_byte_of_string "{}"%string ++ [xff]))
              json.Unmarshal base64.DecodeString "b"%string.
Proof.
  apply (dumpSPKIs_ignores_body
           (single_file "a"%string (le_bytes16 2 ++ list_byte_of_string "{}"%string ++ body_ex))
           (single_file "b"%string (le_bytes16 2 ++ list_byte_of_string "{}"%string ++ [xff]))
           json.Unmarshal base64.DecodeString "a"%string "b"%string (list_byte_of_string "{}"%string)
           body_ex [xff]).
  - reflexivity.
  - reflexivity.
  - cbn. lia.
Defined.

(** ** More on [zipReader] *)

(** [ReadAt] returns exactly at the positions that are negative or at most
    the length of the buffer; a position beyond the end panics in the slice
    expression. *)
Theorem ReadAt_beyond_end_panics (z p : list byte) (pos : Z) :
  - 2 ^ 63 <= pos < 2 ^ 63 ->
  (len z < pos -> exists msg, ReadAt z p pos = Panic msg)
  /\ (pos <= len z -> exists p' n, ReadAt z p pos = Ret (p', (n, None))).
Proof.
  intros Hpos. unfold ReadAt. rewrite to_int_id by exact Hpos.
  pose proof (len_nonneg z). split; intros H1.
  - destruct (Z.ltb_spec pos 0); [lia|].
    destruct (Z.ltb_spec (len z) pos); [eauto|lia].
  - destruct (Z.ltb_spec pos 0); [eauto|].
    destruct (Z.ltb_spec (len z) pos); [lia|].
    unfold copy. eauto.
Qed.

Lemma ReadAt_beyond_end_panics_witness :
  exists msg, ReadAt [x01; x02; x03] [x00; x00] 4 = Panic msg.
Proof.
  apply (proj1 (ReadAt_beyond_end_panics [x01; x02; x03] [x00; x00] 4 ltac:(lia))).
  cbn. lia.
Defined.



(** ** More on the container *)

Lemma le_uint32_le_bytes32 (n : Z) (rest : list byte) :
  0 <= n < 2 ^ 32 -> le_uint32 (le_bytes32 n ++ rest) = n.
Proof.
  intros Hn. unfold le_uint32.
  change (index (le_bytes32 n ++ rest) 0) with (byte_of_Z n).
  change (index (le_bytes32 n ++ rest) 1) with (byte_of_Z (n / 2 ^ 8)).
  change (index (le_bytes32 n ++ rest) 2) with (byte_of_Z (n / 2 ^ 16)).
  change (index (le_bytes32 n ++ rest) 3) with (byte_of_Z (n / 2 ^ 24)).
  rewrite !byte_val_of_Z_mod. apply le_digits32. exact Hn.
Qed.

Lemma fetch_crx_header
    (zip_NewReader :
       (list byte -> Z -> go (list byte * (Z * option string))) -> Z -> result (list zip_File))
    (version rest : list byte) (L : Z) :
  len version = 4 -> 0 <= L < 2 ^ 32 ->
  fetch_crx zip_NewReader (magic ++ version ++ le_bytes32 L ++ rest)
  = if len rest <? L then
      ([Stderr ("Downloaded file doesn't look like a CRX" ++ nl)%string], false)
    else extract_crl_set (zip_NewReader (ReadAt (slice_from rest L)) (len (slice_from rest L))).
Proof.
  intros Hv HL. unfold fetch_crx, binary_Read. pose proof (len_nonneg rest) as Hrest.
  assert (Hlen : len (magic ++ version ++ le_bytes32 L ++ rest) = 12 + len rest).
  { rewrite !len_app, Hv. change (len magic) with 4. change (len (le_bytes32 L)) with 4. lia. }
  rewrite Hlen.
  destruct (Z.eqb_spec (12 + len rest) 0); [lia|].
  destruct (Z.ltb_spec (12 + len rest) 12); [lia|].
  cbn [Magic HeaderLen].
  rewrite slice_to_app by reflexivity. rewrite bytes_Equal_refl. cbn [negb orb].
  assert (H8 : slice_from (magic ++ version ++ le_bytes32 L ++ rest) 8 = le_bytes32 L ++ rest).
  { rewrite app_assoc. apply slice_from_app. rewrite len_app, Hv. reflexivity. }
  assert (H12 : slice_from (magic ++ version ++ le_bytes32 L ++ rest) 12 = rest).
  { rewrite !app_assoc. apply slice_from_app. rewrite !len_app, Hv. reflexivity. }
  rewrite H8, H12, le_uint32_le_bytes32 by exact HL.
  rewrite to_int_id by lia.
  destruct (Z.ltb_spec L 0); [lia|].
  unfold Buffer_Next.
  destruct (Z.ltb_spec (len rest) L) as [Hshort|Hfull].
  - rewrite Z.min_r by lia. rewrite len_slice_to by lia.
    destruct (Z.eqb_spec (len rest) L); [lia|]. reflexivity.
  - rewrite Z.min_l by lia. rewrite len_slice_to by lia.
    rewrite Z.eqb_refl. cbn [negb]. unfold extract_crl_set. reflexivity.
Qed.

(** For a container laid out as the magic, any four bytes of version, the
    32-bit length of the signed header, the signed header and the archive,
    [fetch] skips the signed header and hands the archive reader exactly the
    bytes after it, with their length; what it prints is the content of the
    first entry named [crl-set], or the one diagnostic of the archive. *)
Theorem fetch_crx_reads_container
    (zip_NewReader :
       (list byte -> Z -> go (list byte * (Z * option string))) -> Z -> result (list zip_File))
    (version signedHeader zipBytes : list byte) :
  len version = 4 -> len signedHeader < 2 ^ 32 ->
  fetch_crx zip_NewReader
    (list_byte_of_string "Cr24" ++ version ++ le_bytes32 (len signedHeader)
       ++ signedHeader ++ zipBytes)
  = match zip_NewReader (ReadAt zipBytes) (len zipBytes) with
    | Err err => ([Stderr ("Failed to parse ZIP file: " ++ err ++ nl)%string], false)
    | Ok files =>
        match find (fun file => String.eqb (Name file) "crl-set") files with
        | None => ([Stderr ("Downloaded CRX didn't contain a CRLSet" ++ nl)%string], false)
        | Some crlFile =>
            match Open crlFile with
            | Err err =>
                ([Stderr ("Failed to open crl-set in ZIP: " ++ err ++ nl)%string], false)
            | Ok crlSet => ([Stdout (string_of_list_byte crlSet)], true)
            end
        end
    end.
Proof.
  intros Hv HL. pose proof (len_nonneg signedHeader).
  change (list_byte_of_string "Cr24") with magic.
  rewrite fetch_crx_header by (assumption || lia).
  rewrite len_app. pose proof (len_nonneg zipBytes).
  destruct (Z.ltb_spec (len signedHeader + len zipBytes) (len signedHeader)); [lia|].
  rewrite slice_from_app by reflexivity. reflexivity.
Qed.

(** A container whose signed header is shorter than the length it announces
    is rejected as not looking like a CRX, and the archive reader is not
    asked. *)
Theorem fetch_crx_truncated_signed_header
    (zip_NewReader :
       (list byte -> Z -> go (list byte * (Z * option string))) -> Z -> result (list zip_File))
    (version rest : list byte) (L : Z) :
  len version = 4 -> 0 <= L < 2 ^ 32 -> len rest < L ->
  fetch_crx zip_NewReader (list_byte_of_string "Cr24" ++ version ++ le_bytes32 L ++ rest)
  = ([Stderr ("Downloaded file doesn't look like a CRX" ++ nl)%string], false).
Proof.
  intros Hv HL Hshort. change (list_byte_of_string "Cr24") with magic.
  rewrite fetch_crx_header by assumption.
  destruct (Z.ltb_spec (len rest) L); [reflexivity|lia].
Qed.

Lemma fetch_crx_reads_container_witness :
  fetch_crx stored_zip
    (list_byte_of_string "Cr24" ++ [x03; x00; x00; x00] ++ le_bytes32 (len [xaa; xbb])
       ++ [xaa; xbb] ++ file_ex)
  = ([Stdout (string_of_list_byte file_ex)], true).
Proof.
  exact (fetch_crx_reads_container stored_zip [x03; x00; x00; x00] [xaa; xbb] file_ex
           eq_refl eq_refl).
Defined.

Lemma fetch_crx_truncated_signed_header_witness :
  fetch_crx stored_zip
    (list_byte_of_string "Cr24" ++ [x03; x00; x00; x00] ++ le_bytes32 5 ++ [xaa; xbb])
  = ([Stderr ("Downloaded file doesn't look like a CRX" ++ nl)%string], false).
Proof.
  apply (fetch_crx_truncated_signed_header stored_zip [x03; x00; x00; x00] [xaa; xbb] 5).
  - reflexivity.
  - lia.
  - cbn. lia.
Defined.

(** ** More on [fetch] *)

Section FetchFacts.

Variable http_Get : string -> result (result (list byte)).
Variable xml_Unmarshal : list byte -> update -> update * option string.
Variable zip_NewReader :
  (list byte -> Z -> go (list byte * (Z * option string))) -> Z -> result (list zip_File).

Local Abbreviation fetch' := (fetch http_Get xml_Unmarshal zip_NewReader).
Local Abbreviation fetch_crx' := (fetch_crx zip_NewReader).

Lemma fetch_crx_outcome (crxBytes : list byte) (t : list event) (b : bool) :
  fetch_crx' crxBytes = (t, b) ->
  if b then exists crlSet, t = [Stdout (string_of_list_byte crlSet)]
  else exists msg, t = [Stderr msg].
Proof.
  unfold fetch_crx.
  destruct (binary_Read crxBytes) as [[header crx]|e];
    [|intros H; injection H as <- <-; eauto].
  destruct (negb _ || _); [intros H; injection H as <- <-; eauto|].
  destruct (Buffer_Next crx (to_int (HeaderLen header))) as [protoHeader crx'].
  destruct (negb _); [intros H; injection H as <- <-; eauto|].
  destruct (zip_NewReader _ _) as [files|e]; [|intros H; injection H as <- <-; eauto].
  destruct (find _ files) as [crlFile|]; [|intros H; injection H as <- <-; eauto].
  destruct (Open crlFile) as [crlSet|e]; intros H; injection H as <- <-; eauto.
Qed.

Lemma fetch_outcome (t : list event) (b : bool) :
  fetch' = (t, b) ->
  (b = true -> exists crlSet, stdout_of t = [string_of_list_byte crlSet])
  /\ (b = false -> stdout_of t = [] /\ stderr_of t <> []).
Proof.
  unfold fetch.
  destruct (http_Get buildVersionRequestURL) as [[bodyBytes|e]|e];
    try (intros H; injection H as <- <-; split; [discriminate|];
         intros _; split; [reflexivity|discriminate]).
  destruct (xml_Unmarshal bodyBytes _) as [reply [e|]];
    try (intros H; injection H as <- <-; split; [discriminate|];
         intros _; split; [reflexivity|discriminate]).
  destruct (match find _ (Apps reply) with Some _ => _ | None => _ end) as [crxURL version].
  destruct (String.length crxURL =? 0)%nat;
    try (intros H; injection H as <- <-; split; [discriminate|];
         intros _; split; [reflexivity|discriminate]).
  destruct (http_Get crxURL) as [[crxBytes|e]|e];
    try (intros H; injection H as <- <-; split; [discriminate|];
         intros _; split; [reflexivity|discriminate]).
  destruct (fetch_crx' crxBytes) as [t1 b1] eqn:E. apply fetch_crx_outcome in E.
  intros H. injection H as <- <-. destruct b1.
  - destruct E as (crlSet & ->). split; [|discriminate]. intros _. exists crlSet. reflexivity.
  - destruct E as (msg & ->). split; [discriminate|]. intros _. split; [reflexivity|discriminate].
Qed.


(** [fetch] downloads from the first application of the reply that has the
    CRLSet id, and from no other: the applications before it and after it
    play no part.  It announces the version of that application, fails when
    its URL is empty, and otherwise goes on with the bytes behind the URL. *)
Theorem fetch_takes_first_matching_app (bodyBytes : list byte) (reply : update)
    (pre post : list updateApp) (app : updateApp) :
  http_Get buildVersionRequestURL = Ok (Ok bodyBytes) ->
  xml_Unmarshal bodyBytes {| Apps := [] |} = (reply, None) ->
  Apps reply = pre ++ app :: post ->
  (forall a, In a pre -> AppId a <> crlSetAppId) ->
  AppId app = crlSetAppId ->
  (URL (UpdateCheck app) = EmptyString ->
   fetch'
   = ([Stderr ("Downloading CRLSet version " ++ Version (UpdateCheck app) ++ nl)%string;
       Stderr ("Failed to parse Omaha response" ++ nl)%string], false))
  /\ (forall crxBytes,
         URL (UpdateCheck app) <> EmptyString ->
         http_Get (URL (UpdateCheck app)) = Ok (Ok crxBytes) ->
         fetch'
         = (Stderr ("Downloading CRLSet version " ++ Version (UpdateCheck app) ++ nl)%string
              :: fst (fetch_crx' crxBytes),
            snd (fetch_crx' crxBytes))).
Proof.
  intros Hget Hxml Happs Hpre Happ.
  assert (Hfind : find (fun a => String.eqb (AppId a) crlSetAppId) (Apps reply) = Some app).
  { rewrite Happs. clear Happs. induction pre as [|a pre IH].
    - cbn [List.app find]. rewrite Happ, String.eqb_refl. reflexivity.
    - cbn [List.app find].
      destruct (String.eqb_spec (AppId a) crlSetAppId) as [E|_].
      + exfalso. apply (Hpre a); [left; reflexivity|exact E].
      + apply IH. intros a' Ha'. apply Hpre. right. exact Ha'. }
  unfold fetch. rewrite Hget, Hxml, Hfind. split.
  - intros Hurl. rewrite Hurl. reflexivity.
  - intros crxBytes Hurl Hcrx.
    destruct (URL (UpdateCheck app)) as [|c s] eqn:E; [contradiction|].
    cbn [String.length Nat.eqb]. rewrite Hcrx.
    destruct (fetch_crx' crxBytes) as [t1 b1]. reflexivity.
Qed.

End FetchFacts.


Lemma fetch_takes_first_matching_app_witness :
  fetch (sample_http "http://example/crx" (encode_crx [x03; x00; x00; x00] [xaa; xbb] file_ex))
        (sample_xml "http://example/crx") stored_zip
  = ([Stderr ("Downloading CRLSet version 56" ++ nl)%string;
      Stdout (string_of_list_byte file_ex)], true).
Proof.
  apply (proj2 (fetch_takes_first_matching_app
                  (sample_http "http://example/crx"
                     (encode_crx [x03; x00; x00; x00] [xaa; xbb] file_ex))
                  (sample_xml "http://example/crx") stored_zip
                  [] (sample_reply "http://example/crx")
                  [{| AppId := "other";
                      UpdateCheck := {| URL := "http://example/other"; Version := "1" |} |}]
                  []
                  {| AppId := crlSetAppId;
                     UpdateCheck := {| URL := "http://example/crx"; Version := "56" |} |}
                  eq_refl eq_refl eq_refl
                  ltac:(intros a [<-|[]]; discriminate) eq_refl)
           (encode_crx [x03; x00; x00; x00] [xaa; xbb] file_ex)).
  - discriminate.
  - reflexivity.
Defined.

(** ** [main] *)

Section MainFacts.

Variable ReadFile : string -> result (list byte).
Variable json_Unmarshal : list byte -> crlSetHeader -> crlSetHeader * option string.
Variable pem_Decode : list byte -> option (list byte).
Variable x509_ParseCertificate : list byte -> result (list byte).
Variable sha256_Sum : list byte -> list byte.
Variable base64_DecodeString : string -> result (list byte).
Variable http_Get : string -> result (result (list byte)).
Variable xml_Unmarshal : list byte -> update -> update * option string.
Variable zip_NewReader :
  (list byte -> Z -> go (list byte * (Z * option string))) -> Z -> result (list zip_File).

Local Abbreviation main' :=
  (main ReadFile json_Unmarshal pem_Decode x509_ParseCertificate sha256_Sum
        base64_DecodeString http_Get xml_Unmarshal zip_NewReader).
Local Abbreviation main_switch' :=
  (main_switch ReadFile json_Unmarshal pem_Decode x509_ParseCertificate sha256_Sum
               base64_DecodeString http_Get xml_Unmarshal zip_NewReader).

Lemma dumpSPKIs_failure_is_reported (filename : string) (t : list event) :
  dumpSPKIs ReadFile json_Unmarshal base64_DecodeString filename = (t, false) ->
  stderr_of t <> [].
Proof.
  unfold dumpSPKIs.
  destruct (getHeader ReadFile json_Unmarshal filename) as [t0 [[h c] ok]] eqn:Hh.
  apply getHeader_diagnostics in Hh. destruct ok; cbn [negb]; [discriminate|].
  destruct Hh as (msg & -> & _). intros H. injection H as <-. discriminate.
Qed.

Lemma dump_failure_is_reported (filename certificateFilename : string) (t : list event) :
  dump ReadFile json_Unmarshal pem_Decode x509_ParseCertificate sha256_Sum
       filename certificateFilename = Some (t, false) ->
  stderr_of t <> [].
Proof.
  intros H. apply dump_diagnostics in H.
  destruct (proj2 H eq_refl) as (t' & msg & -> & Ht').
  rewrite stderr_of_app, Ht'. discriminate.
Qed.

Lemma fetch_failure_is_reported (t : list event) :
  fetch http_Get xml_Unmarshal zip_NewReader = (t, false) -> stderr_of t <> [].
Proof.
  intros H. apply fetch_outcome in H. apply (proj2 H eq_refl).
Qed.

Lemma main_switch_cases (arg0 cmd : string) (rest : list string) :
  exists t result needUsage,
    main_switch' (arg0 :: cmd :: rest) = Some (t, result, needUsage)
    /\ (needUsage = true ->
        t = [] /\ result = false /\ runs_operation (arg0 :: cmd :: rest) = false)
    /\ (needUsage = false ->
        runs_operation (arg0 :: cmd :: rest) = true
        /\ (result = false -> stderr_of t <> [])).
Proof.
  unfold main_switch. change (arg (arg0 :: cmd :: rest) 1) with cmd.
  destruct (String.eqb_spec cmd "fetch") as [->|Hf].
  { destruct rest as [|a2 rest].
    - cbn [List.length Nat.eqb].
      destruct (fetch http_Get xml_Unmarshal zip_NewReader) as [t b] eqn:E.
      exists t, b, false. split; [reflexivity|]. split; [discriminate|].
      intros _. split; [reflexivity|]. intros ->. apply fetch_failure_is_reported. exact E.
    - exists [], false, true. split; [reflexivity|]. split; [|discriminate].
      intros _. repeat split. destruct rest as [|a3 [|a4 rest]]; reflexivity. }
  destruct (String.eqb_spec cmd "dump") as [->|Hd].
  { destruct rest as [|a2 [|a3 [|a4 rest]]].
    - exists [], false, true. split; [reflexivity|]. split; [|discriminate].
      intros _. repeat split.
    - cbn [List.length Nat.eqb]. change (arg [arg0; "dump"%string; a2] 2) with a2.
      destruct (dump_total ReadFile json_Unmarshal pem_Decode x509_ParseCertificate
                  sha256_Sum a2 EmptyString) as (t & b & E).
      rewrite E. exists t, b, false. split; [reflexivity|]. split; [discriminate|].
      intros _. split; [reflexivity|]. intros ->. apply dump_failure_is_reported in E. exact E.
    - cbn [List.length Nat.eqb]. change (arg [arg0; "dump"%string; a2; a3] 2) with a2.
      change (arg [arg0; "dump"%string; a2; a3] 3) with a3.
      destruct (dump_total ReadFile json_Unmarshal pem_Decode x509_ParseCertificate
                  sha256_Sum a2 a3) as (t & b & E).
      rewrite E. exists t, b, false. split; [reflexivity|]. split; [discriminate|].
      intros _. split; [reflexivity|]. intros ->. apply dump_failure_is_reported in E. exact E.
    - exists [], false, true. split; [reflexivity|]. split; [|discriminate].
      intros _. repeat split. }
  destruct (String.eqb_spec cmd "dumpSPKIs") as [->|Hs].
  { destruct rest as [|a2 [|a3 rest]].
    - exists [], false, true. split; [reflexivity|]. split; [|discriminate].
      intros _. repeat split.
    - cbn [List.length Nat.eqb]. change (arg [arg0; "dumpSPKIs"%string; a2] 2) with a2.
      destruct (dumpSPKIs ReadFile json_Unmarshal base64_DecodeString a2) as [t b] eqn:E.
      exists t, b, false. split; [reflexivity|]. split; [discriminate|].
      intros _. split; [reflexivity|]. intros ->.
      apply dumpSPKIs_failure_is_reported in E. exact E.
    - exists [], false, true. split; [reflexivity|]. split; [|discriminate].
      intros _. repeat split. destruct rest as [|a4 rest]; reflexivity. }
  exists [], false, true. split; [reflexivity|]. split; [|discriminate].
  intros _. repeat split. unfold runs_operation.
  apply String.eqb_neq in Hf. apply String.eqb_neq in Hd. apply String.eqb_neq in Hs.
  rewrite Hf, Hd, Hs. destruct rest as [|a2 [|a3 [|a4 rest]]]; reflexivity.
Qed.

(** With a command line that is none of [fetch], [dump <file>],
    [dump <file> <cert>] and [dumpSPKIs <file>], [main] runs nothing: it
    prints the usage line, with the name the program was called by, and
    exits with status 1. *)
Theorem main_prints_usage (arg0 : string) (rest : list string) :
  runs_operation (arg0 :: rest) = false ->
  main' (arg0 :: rest)
  = Some (Ret ([Stderr (arg0 ++ ": { fetch | dumpSPKIs <filename> | dump <filename> [<cert filename>] }"
                        ++ nl)%string], 1)).
Proof.
  intros Hruns. unfold main. destruct rest as [|cmd rest]; [reflexivity|].
  cbn [List.length Nat.ltb Nat.leb].
  destruct (main_switch_cases arg0 cmd rest) as (t & result & needUsage & E & Hu & Hn).
  rewrite E. destruct needUsage.
  - destruct (Hu eq_refl) as (-> & -> & _). reflexivity.
  - destruct (Hn eq_refl) as (Hr & _). congruence.
Qed.

(** Whatever the command line, as long as it holds the program name, [main]
    ends with status 0 or 1; status 0 comes only with a command line of one
    of the four forms, and status 1 never comes without something on the
    error stream. *)
Theorem main_exit_status (arg0 : string) (rest : list string) :
  exists t code,
    main' (arg0 :: rest) = Some (Ret (t, code))
    /\ (code = 0 \/ code = 1)
    /\ (code = 0 -> runs_operation (arg0 :: rest) = true)
    /\ (code = 1 -> stderr_of t <> []).
Proof.
  unfold main. destruct rest as [|cmd rest].
  - cbn [List.length Nat.ltb Nat.leb usage]. eexists _, 1. split; [reflexivity|].
    split; [right; reflexivity|]. split; [discriminate|]. intros _. discriminate.
  - cbn [List.length Nat.ltb Nat.leb].
    destruct (main_switch_cases arg0 cmd rest) as (t & result & needUsage & E & Hu & Hn).
    rewrite E. destruct needUsage.
    + destruct (Hu eq_refl) as (-> & -> & _). cbn [usage]. eexists _, 1.
      split; [reflexivity|]. split; [right; reflexivity|]. split; [discriminate|].
      intros _. discriminate.
    + destruct (Hn eq_refl) as (Hr & Herr). exists (t ++ []), (if result then 0 else 1).
      split; [reflexivity|]. destruct result.
      * split; [left; reflexivity|]. split; [intros _; exact Hr|discriminate].
      * split; [right; reflexivity|]. split; [discriminate|].
        intros _. rewrite app_nil_r. apply Herr. reflexivity.
Qed.

End MainFacts.

Lemma main_prints_usage_witness :
  main (single_file "crl-set" file_ex) json.Unmarshal no_pem no_certificate no_digest
       base64.DecodeString (sample_http "http://example/crx" []) (sample_xml "http://example/crx")
       stored_zip ["crlset-tools"; "dump"]%string
  = Some (Ret ([Stderr ("crlset-tools: { fetch | dumpSPKIs <filename> | dump <filename> [<cert filename>] }"
                        ++ nl)%string], 1)).
Proof.
  exact (main_prints_usage (single_file "crl-set" file_ex) json.Unmarshal no_pem
           no_certificate no_digest base64.DecodeString
           (sample_http "http://example/crx" []) (sample_xml "http://example/crx")
           stored_zip "crlset-tools" ["dump"%string] eq_refl).
Defined.

(** ** The printed lines *)

Lemma hexdigit_code (n : Z) :
  0 <= n < 16 ->
  Z.of_nat (nat_of_ascii (hexdigit n)) = if n <? 10 then 48 + n else 87 + n.
Proof.
  intros Hn. unfold hexdigit.
  destruct (Z.ltb_spec n 10); rewrite nat_ascii_embedding; lia.
Qed.

Lemma hexdigit_inj (n m : Z) :
  0 <= n < 16 -> 0 <= m < 16 -> hexdigit n = hexdigit m -> n = m.
Proof.
  intros Hn Hm H.
  pose proof (hexdigit_code n Hn) as Cn. pose proof (hexdigit_code m Hm) as Cm.
  rewrite H in Cn. rewrite Cn in Cm.
  destruct (Z.ltb_spec n 10); destruct (Z.ltb_spec m 10); lia.
Qed.

(** A hexadecimal digit is neither a tab nor a line feed. *)
Lemma hexdigit_not_separator (n : Z) (c : ascii) :
  0 <= n < 16 -> c = "009"%char \/ c = "010"%char -> hexdigit n <> c.
Proof.
  intros Hn Hc H. pose proof (hexdigit_code n Hn) as Cn. rewrite H in Cn.
  assert (Hcode : Z.of_nat (nat_of_ascii c) <= 10)
    by (destruct Hc as [-> | ->]; vm_compute; discriminate).
  destruct (Z.ltb_spec n 10); lia.
Qed.

Lemma byte_nibbles (a b : byte) :
  byte_val a / 16 = byte_val b / 16 -> byte_val a mod 16 = byte_val b mod 16 -> a = b.
Proof.
  intros Hd Hm. rewrite <- (byte_of_Z_val a), <- (byte_of_Z_val b). f_equal.
  rewrite (Z.div_mod (byte_val a) 16), (Z.div_mod (byte_val b) 16) by lia.
  rewrite Hd, Hm. reflexivity.
Qed.

Lemma nibble_ranges (a : byte) : 0 <= byte_val a / 16 < 16 /\ 0 <= byte_val a mod 16 < 16.
Proof.
  pose proof (byte_val_range a). split.
  - split; [apply Z.div_pos; lia|apply Z.div_lt_upper_bound; lia].
  - apply Z.mod_pos_bound. lia.
Qed.

Lemma hex_split (c : ascii) (a b : list byte) (r1 r2 : string) :
  c = "009"%char \/ c = "010"%char ->
  (hex a ++ String c r1)%string = (hex b ++ String c r2)%string -> a = b /\ r1 = r2.
Proof.
  intros Hc. revert b. induction a as [|x a IH]; intros [|y b]; cbn [hex String.append].
  - intros H. injection H as ->. split; reflexivity.
  - intros H. injection H as H _. exfalso.
    symmetry in H. revert H. apply hexdigit_not_separator; [apply nibble_ranges|exact Hc].
  - intros H. injection H as H _. exfalso.
    revert H. apply hexdigit_not_separator; [apply nibble_ranges|exact Hc].
  - intros H. injection H as H1 H2 H3.
    apply hexdigit_inj in H1; try apply nibble_ranges.
    apply hexdigit_inj in H2; try apply nibble_ranges.
    destruct (IH b H3) as [-> ->]. rewrite (byte_nibbles x y H1 H2). split; reflexivity.
Qed.

Lemma fmt_serial_inj (s1 s2 : list byte) : fmt_serial s1 = fmt_serial s2 -> s1 = s2.
Proof.
  unfold fmt_serial, nl. intros H.
  apply (hex_split "010" s1 s2 EmptyString EmptyString) in H; [apply H|right; reflexivity].
Qed.

Lemma fmt_record_inj (fp1 s1 fp2 s2 : list byte) :
  fmt_record fp1 s1 = fmt_record fp2 s2 -> fp1 = fp2 /\ s1 = s2.
Proof.
  unfold fmt_record, tab. cbn [String.append]. intros H. injection H as H.
  apply hex_split in H; [|left; reflexivity]. destruct H as [-> H].
  injection H as H. apply hex_split in H; [|left; reflexivity].
  destruct H as [-> _]. split; reflexivity.
Qed.

Lemma record_lines_pairs (bs : list block) :
  record_lines bs = map (fun p => fmt_record (fst p) (snd p)) (pairs_of bs).
Proof.
  unfold record_lines, pairs_of.
  induction bs as [|b bs IH]; [reflexivity|].
  cbn [flat_map]. rewrite map_app, IH, map_map. reflexivity.
Qed.

(** The lines of [dump] can be read back: two serials that print the same
    filtered line are equal, and two bodies whose unfiltered dumps print the
    same records list the same serials under the same fingerprints, in the
    same order. *)
Theorem dump_output_determines_revocations :
  (forall s1 s2, fmt_serial s1 = fmt_serial s2 -> s1 = s2)
  /\ (forall bs1 bs2,
         flat_map (fun b => map (fmt_record (fingerprint b)) (serials b)) bs1
         = flat_map (fun b => map (fmt_record (fingerprint b)) (serials b)) bs2 ->
         pairs_of bs1 = pairs_of bs2).
Proof.
  split; [exact fmt_serial_inj|].
  intros bs1 bs2 H. fold (record_lines bs1) in H. fold (record_lines bs2) in H.
  rewrite !record_lines_pairs in H.
  revert H. generalize (pairs_of bs1) (pairs_of bs2).
  induction l as [|[fp1 s1] l IH]; intros [|[fp2 s2] l0]; cbn [map fst snd];
    intros H; try reflexivity; try discriminate H.
  pose proof (f_equal (hd EmptyString) H) as H1. pose proof (f_equal (@tl string) H) as H2.
  cbn [hd tl] in H1, H2. apply fmt_record_inj in H1. destruct H1 as [-> ->].
  rewrite (IH l0 H2). reflexivity.
Qed.

Lemma dump_output_determines_revocations_witness :
  pairs_of body_dup
  = pairs_of [{| fingerprint := fp00; serials := [[xab]; [xcd]; [xef]] |}].
Proof.
  apply (proj2 dump_output_determines_revocations). reflexivity.
Defined.
